(** * Display-list walker of the TI-Nspire port: segment table, call stack,
      command dispatch.

    The development embeds
    - [gbi_nsp.h]: the [Gfx] command word pair, the opcode numbers and the
      command builders ([gSPDisplayList], [gSPBranchList], [gSPSegment], ...);
    - the explicit-stack [main_nsp.c] (segment table, [dl_push]/[dl_pop],
      [nsp_process_display_list] as a [while (1)] loop), in [StackWalker];
    - [platform/main_nsp.c] (the recursive walker and its unconditional
      address resolution), in [RecursiveWalker].

    Conventions.  A [uint32_t] is a [Z] in [0, 2^32).  The target is a 32-bit
    ARM, so [uintptr_t] and [Gfx*] are 32-bit byte addresses as well; pointer
    arithmetic wraps modulo 2^32 and [sizeof(Gfx) = 8].  Memory is a total map
    from byte addresses to commands: the walker performs no bounds check and
    reads whatever the cursor points at.  The [while (1)] loop is a step
    function ([loop_body]) iterated under a fuel; [None] means that the loop
    is still running when the fuel is exhausted. *)

From Stdlib Require Import ZArith Lia Bool List.
From stdpp Require Import base tactics option list.

Open Scope Z_scope.

(** ** Machine integers *)

Definition u32 (x : Z) : Z := x mod 2 ^ 32.

(** [uintptr_t] arithmetic on the 32-bit target. *)
Definition uptr (x : Z) : Z := x mod 2 ^ 32.

Definition sizeof_Gfx : Z := 8.

(** [dl + 1] on a [Gfx*]. *)
Definition ptr_next (dl : Z) : Z := uptr (dl + sizeof_Gfx).

(** [dl + n] on a [Gfx*], as [n] increments. *)
Definition advance (n : nat) (dl : Z) : Z := Nat.iter n ptr_next dl.

(** ** gbi_nsp.h *)

Record Gfx : Type := mkGfx { w0 : Z; w1 : Z }.

Definition Gfx_eqb (a b : Gfx) : bool := (w0 a =? w0 b) && (w1 a =? w1 b).

Module GBI.

Definition G_SPNOOP : Z := 0x00.
Definition G_MTX : Z := 0x01.
Definition G_MOVEMEM : Z := 0x03.
Definition G_VTX : Z := 0x04.
Definition G_DL : Z := 0x06.
Definition G_TRI2 : Z := 0x09.
Definition G_TRI1 : Z := 0x0C.
Definition G_ENDDL : Z := 0xDF.
Definition G_SETOTHERMODE_L : Z := 0xE2.
Definition G_SETOTHERMODE_H : Z := 0xE3.
Definition G_TEXRECT : Z := 0xE4.
Definition G_SETCIMG : Z := 0xFF.
Definition G_SETZIMG : Z := 0xFE.
Definition G_SETTIMG : Z := 0xFD.
Definition G_SETCOMBINE : Z := 0xFC.
Definition G_SETENVCOLOR : Z := 0xFB.
Definition G_SETPRIMCOLOR : Z := 0xFA.
Definition G_SETFOGCOLOR : Z := 0xF8.
Definition G_SETFILLCOLOR : Z := 0xF7.
Definition G_FILLRECT : Z := 0xF6.
Definition G_SETTILE : Z := 0xF5.
Definition G_LOADTILE : Z := 0xF4.
Definition G_LOADBLOCK : Z := 0xF3.
Definition G_SETTILESIZE : Z := 0xF2.
Definition G_LOADTLUT : Z := 0xF0.
Definition G_RDPSETOTHERMODE : Z := 0xEF.
Definition G_SETSCISSOR : Z := 0xED.
Definition G_RDPFULLSYNC : Z := 0xE9.
Definition G_RDPTILESYNC : Z := 0xE8.
Definition G_RDPPIPESYNC : Z := 0xE7.
Definition G_RDPLOADSYNC : Z := 0xE6.
Definition G_NOOP : Z := 0xC0.
Definition G_POPMTX : Z := 0xD8.
Definition G_GEOMETRYMODE : Z := 0xD9.
Definition G_TEXTURE : Z := 0xD7.
Definition G_MW_SEGMENT : Z := 0x06.

(** [gDPNoOp(pkt)]: both words zero. *)
Definition gDPNoOp : Gfx := {| w0 := 0; w1 := 0 |}.

(** [gSPDisplayList(pkt, dl)]: [w0 = G_DL << 24], [w1 = (uint32_t)dl]. *)
Definition gSPDisplayList (dl : Z) : Gfx :=
  {| w0 := Z.shiftl G_DL 24; w1 := u32 dl |}.

(** [gSPEndDisplayList(pkt)]. *)
Definition gSPEndDisplayList : Gfx :=
  {| w0 := Z.shiftl G_ENDDL 24; w1 := 0 |}.

(** [gSPVertex(pkt, vtx, n, v0)]. *)
Definition gSPVertex (vtx n v0 : Z) : Gfx :=
  {| w0 := u32 (Z.lor (Z.lor (Z.shiftl G_VTX 24) (Z.shiftl n 12))
                      (Z.shiftl (v0 + n) 1));
     w1 := u32 vtx |}.

(** [gSP1Triangle(pkt, v0, v1, v2, flag)]; [flag] is not encoded. *)
Definition gSP1Triangle (v0 v1 v2 flag : Z) : Gfx :=
  {| w0 := u32 (Z.lor (Z.lor (Z.lor (Z.shiftl G_TRI1 24)
                                    (Z.shiftl (v0 * 2) 16))
                             (Z.shiftl (v1 * 2) 8))
                      (v2 * 2));
     w1 := 0 |}.

(** [gSPSegment(pkt, seg, base)]: the macro body is
    [w0 = (G_MOVEMEM << 24); w1 = (uint32_t)base]; [seg] does not occur
    in it. *)
Definition gSPSegment (seg base : Z) : Gfx :=
  {| w0 := Z.shiftl G_MOVEMEM 24; w1 := u32 base |}.

(** [#define gSPBranchList(pkt, dl) gSPDisplayList(pkt, dl)]. *)
Definition gSPBranchList (dl : Z) : Gfx := gSPDisplayList dl.

End GBI.

Import GBI.

(** ** Memory *)

Definition memory : Type := Z -> Gfx.

(** The memory [m] with the command array [cmds] stored from byte address
    [base] on, one command every [sizeof(Gfx)] bytes. *)
Definition load_at (base : Z) (cmds : list Gfx) (m : memory) : memory :=
  fun a =>
    if (base <=? a) && (a <? base + sizeof_Gfx * Z.of_nat (length cmds))
       && ((a - base) mod sizeof_Gfx =? 0)
    then nth (Z.to_nat ((a - base) / sizeof_Gfx)) cmds gDPNoOp
    else m a.

(** Whether the commands [cmds] lie in memory from [base] on, one after the
    other. *)
Fixpoint stream_at (mem : memory) (base : Z) (cmds : list Gfx) : bool :=
  match cmds with
  | [] => true
  | g :: rest => Gfx_eqb (mem base) g && stream_at mem (ptr_next base) rest
  end.

(** The memory [m] with the single command [g] stored at [a]. *)
Definition store (a : Z) (g : Gfx) (m : memory) : memory :=
  fun a' => if a' =? a then g else m a'.

(** Memory filled with zero words. *)
Definition zero_mem : memory := fun _ => gDPNoOp.

(** ** Static state of the explicit-stack walker *)

(** [nsp_segments[16]], [dl_stack[DL_STACK_SIZE]] and [dl_stack_top] are the
    file-scope variables of the translation unit.  [backend] is the sequence
    of commands handed to the software renderer; the source has no call into
    the renderer (the render cases of the switch hold a comment and [break]),
    so no transition below extends it. *)
Record world : Type := mkWorld {
  nsp_segments : list Z;
  dl_stack : list Z;
  dl_stack_top : Z;
  backend : list Gfx
}.

Definition DL_STACK_SIZE : Z := 16.

(** The state of a freshly loaded program: static storage is zeroed. *)
Definition boot : world :=
  {| nsp_segments := replicate 16 0;
     dl_stack := replicate 16 0;
     dl_stack_top := 0;
     backend := [] |}.

(** [a[i]] on a static array of machine words. *)
Definition array_get (a : list Z) (i : Z) : Z := default 0 (a !! Z.to_nat i).

Module StackWalker.

(** [nsp_segments[seg & 0xF] = (uintptr_t)addr]. *)
Definition set_segment (segs : list Z) (seg addr : Z) : list Z :=
  <[Z.to_nat (Z.land seg 0xF) := addr]> segs.

Definition nsp_set_segment (seg addr : Z) (w : world) : world :=
  {| nsp_segments := set_segment (nsp_segments w) seg addr;
     dl_stack := dl_stack w;
     dl_stack_top := dl_stack_top w;
     backend := backend w |}.

Definition nsp_segmented_to_virtual (segs : list Z) (addr : Z) : Z :=
  let seg := Z.land (Z.shiftr addr 24) 0xF in
  let offset := Z.land addr 0x00FFFFFF in
  if array_get segs seg =? 0 then offset
  else uptr (array_get segs seg + offset).

Definition dl_push (dl : Z) (w : world) : world :=
  if dl_stack_top w <? DL_STACK_SIZE then
    {| nsp_segments := nsp_segments w;
       dl_stack := <[Z.to_nat (dl_stack_top w) := dl]> (dl_stack w);
       dl_stack_top := dl_stack_top w + 1;
       backend := backend w |}
  else w.

(** Returns the popped pointer ([NULL] is 0) and the new state. *)
Definition dl_pop (w : world) : Z * world :=
  if dl_stack_top w >? 0 then
    (array_get (dl_stack w) (dl_stack_top w - 1),
     {| nsp_segments := nsp_segments w;
        dl_stack := dl_stack w;
        dl_stack_top := dl_stack_top w - 1;
        backend := backend w |})
  else (0, w).

(** The groups of [case] labels of the switch. *)
Inductive opclass : Type :=
| OpEndDL | OpDL | OpMoveMem | OpRender | OpSync | OpDefault.

Definition render_opcodes : list Z :=
  [G_VTX; G_TRI1; G_TRI2; G_MTX; G_POPMTX; G_GEOMETRYMODE; G_TEXTURE;
   G_SETCOMBINE; G_SETTIMG; G_SETTILE; G_SETTILESIZE; G_LOADBLOCK;
   G_LOADTILE; G_LOADTLUT; G_SETSCISSOR; G_SETENVCOLOR; G_SETPRIMCOLOR;
   G_SETFOGCOLOR; G_SETFILLCOLOR; G_FILLRECT; G_SETCIMG; G_SETZIMG;
   G_RDPSETOTHERMODE; G_SETOTHERMODE_L; G_SETOTHERMODE_H; G_TEXRECT].

Definition sync_opcodes : list Z :=
  [G_RDPPIPESYNC; G_RDPTILESYNC; G_RDPLOADSYNC; G_RDPFULLSYNC;
   G_SPNOOP; G_NOOP].

Definition mem_opcode (c : Z) (l : list Z) : bool := existsb (Z.eqb c) l.

Definition dispatch (cmd : Z) : opclass :=
  if cmd =? G_ENDDL then OpEndDL
  else if cmd =? G_DL then OpDL
  else if cmd =? G_MOVEMEM then OpMoveMem
  else if mem_opcode cmd render_opcodes then OpRender
  else if mem_opcode cmd sync_opcodes then OpSync
  else OpDefault.

(** [(w0 >> 24) & 0xFF]. *)
Definition opcode (g : Gfx) : Z := Z.land (Z.shiftr (w0 g) 24) 0xFF.

(** [(w0 & 0x00FF0000) == 0x00010000]. *)
Definition is_branch (g : Gfx) : bool :=
  Z.land (w0 g) 0x00FF0000 =? 0x00010000.

(** Result of one iteration of the [while (1)] loop: [return], or the next
    iteration with its cursor ([continue], or [break] followed by [dl++]). *)
Inductive step : Type :=
| Return (w : world)
| Next (dl : Z) (w : world).

(** The statics one iteration leaves behind, whichever way it ends. *)
Definition after (s : step) : world :=
  match s with Return w => w | Next _ w => w end.

Definition loop_body (mem : memory) (dl : Z) (w : world) : step :=
  let g := mem dl in
  match dispatch (opcode g) with
  | OpEndDL =>
      let '(parent, w') := dl_pop w in
      if parent =? 0 then Return w' else Next parent w'
  | OpDL =>
      let child := w1 g in
      if child =? 0 then Next (ptr_next dl) w
      else if is_branch g then Next child w
      else Next child (dl_push (ptr_next dl) w)
  | OpMoveMem =>
      let index := Z.land (Z.shiftr (w0 g) 8) 0xFF in
      let offset := Z.land (Z.shiftr (w0 g) 0) 0xFF in
      if index =? G_MW_SEGMENT
      then Next (ptr_next dl) (nsp_set_segment (offset / 4) (w1 g) w)
      else Next (ptr_next dl) w
  | OpRender => Next (ptr_next dl) w
  | OpSync => Next (ptr_next dl) w
  | OpDefault => Next (ptr_next dl) w
  end.

Global Arguments loop_body : simpl never.
Global Arguments dispatch : simpl never.

(** The loop, at most [fuel] iterations. *)
Fixpoint walk (fuel : nat) (mem : memory) (dl : Z) (w : world)
  : option world :=
  match fuel with
  | O => None
  | S fuel' =>
      match loop_body mem dl w with
      | Return w' => Some w'
      | Next dl' w' => walk fuel' mem dl' w'
      end
  end.

(** [dl_stack_top = 0;] *)
Definition reset_stack (w : world) : world :=
  {| nsp_segments := nsp_segments w;
     dl_stack := dl_stack w;
     dl_stack_top := 0;
     backend := backend w |}.

Definition nsp_process_display_list (fuel : nat) (mem : memory) (dl : Z)
    (w : world) : option world :=
  if dl =? 0 then Some w
  else walk fuel mem dl (reset_stack w).

(** *** Observation of a run *)

(** The loop state (cursor and statics) on entry to iteration [n], counted
    from 0; [None] when the loop has returned before. *)
Fixpoint iter (n : nat) (mem : memory) (dl : Z) (w : world)
  : option (Z * world) :=
  match n with
  | O => Some (dl, w)
  | S n' =>
      match loop_body mem dl w with
      | Return _ => None
      | Next dl' w' => iter n' mem dl' w'
      end
  end.

(** The cursors of the first [n] iterations, in order. *)
Fixpoint cursors (n : nat) (mem : memory) (dl : Z) (w : world) : list Z :=
  match n with
  | O => []
  | S n' =>
      dl :: match loop_body mem dl w with
            | Return _ => []
            | Next dl' w' => cursors n' mem dl' w'
            end
  end.

(** The commands fetched by the first [n] iterations, in order. *)
Definition visited (n : nat) (mem : memory) (dl : Z) (w : world)
  : list Gfx := map mem (cursors n mem dl w).

(** The table entry written by a command when the walker executes it. *)
Definition segment_set_target (g : Gfx) : option nat :=
  match dispatch (opcode g) with
  | OpMoveMem =>
      if Z.land (Z.shiftr (w0 g) 8) 0xFF =? G_MW_SEGMENT
      then Some (Z.to_nat (Z.land (Z.land (w0 g) 0xFF / 4) 0xF))
      else None
  | _ => None
  end.

(** Whether one of the first [n] iterations writes table entry [i]. *)
Definition overwritten (n : nat) (mem : memory) (dl : Z) (w : world)
    (i : nat) : bool :=
  existsb (fun g => match segment_set_target g with
                    | Some j => Nat.eqb j i
                    | None => false
                    end) (visited n mem dl w).

(** Commands that only advance the cursor: the render, sync and default
    groups of the switch. *)
Definition inert (g : Gfx) : bool :=
  match dispatch (opcode g) with
  | OpRender | OpSync | OpDefault => true
  | _ => false
  end.

(** [dl_stack] has its declared extent and [dl_stack_top] indexes it. *)
Definition stack_ok (w : world) : Prop :=
  length (dl_stack w) = Z.to_nat DL_STACK_SIZE /\
  0 <= dl_stack_top w <= DL_STACK_SIZE.

End StackWalker.

Module RecursiveWalker.

(** [segment_table[seg & 0xF] = (uintptr_t)addr]. *)
Definition nsp_set_segment (segment_table : list Z) (seg addr : Z) : list Z :=
  <[Z.to_nat (Z.land seg 0xF) := addr]> segment_table.

Definition nsp_segmented_to_virtual (segment_table : list Z) (addr : Z) : Z :=
  let seg := Z.land (Z.shiftr addr 24) 0xF in
  let offset := Z.land addr 0x00FFFFFF in
  uptr (array_get segment_table seg + offset).

(** The recursive walker.  It has no state of its own: every case other
    than [G_ENDDL] and [G_DL] is [break].  One unit of fuel is spent per
    loop iteration and per recursive call. *)
Fixpoint process_loop (fuel : nat) (mem : memory) (dl : Z) : option unit :=
  match fuel with
  | O => None
  | S fuel' =>
      let g := mem dl in
      let cmd := Z.land (Z.shiftr (w0 g) 24) 0xFF in
      if cmd =? G_ENDDL then Some tt
      else if cmd =? G_DL then
        match (if w1 g =? 0 then Some tt else process_loop fuel' mem (w1 g)) with
        | None => None
        | Some _ =>
            if Z.land (w0 g) 0x00FF0000 =? 0x00010000 then Some tt
            else process_loop fuel' mem (ptr_next dl)
        end
      else process_loop fuel' mem (ptr_next dl)
  end.

Definition nsp_process_display_list (fuel : nat) (mem : memory) (dl : Z)
  : option unit :=
  if dl =? 0 then Some tt else process_loop fuel mem dl.

End RecursiveWalker.

(** ** Sample streams *)

Module Samples.
Import StackWalker.

(** The command word pair the walker takes for a branch: opcode [G_DL]
    with 0x01 in bits 16..23 of [w0].  No builder of [gbi_nsp.h] produces
    it. *)
Definition branch_command (target : Z) : Gfx :=
  {| w0 := Z.lor (Z.shiftl G_DL 24) 0x00010000; w1 := u32 target |}.

(** A [G_MOVEMEM] command carrying the [G_MW_SEGMENT] index and the byte
    offset [4 * seg], as the walker decodes a segment command. *)
Definition segment_command (seg base : Z) : Gfx :=
  {| w0 := Z.lor (Z.lor (Z.shiftl G_MOVEMEM 24) (Z.shiftl G_MW_SEGMENT 8))
                 (Z.land (4 * seg) 0xFF);
     w1 := u32 base |}.

Definition render_a : Gfx := gSPVertex 0x4000 3 0.
Definition render_b : Gfx := gSP1Triangle 0 1 2 0.

(** [RENDER(a), RENDER(b), END] at 0x1000. *)
Definition render_stream : memory :=
  load_at 0x1000 [render_a; render_b; gSPEndDisplayList] zero_mem.

(** Parent [CALL(child), RENDER(b), END] at 0x1000, child
    [RENDER(a), END] at 0x2000. *)
Definition call_stream : memory :=
  load_at 0x1000 [gSPDisplayList 0x2000; render_b; gSPEndDisplayList]
    (load_at 0x2000 [render_a; gSPEndDisplayList] zero_mem).

(** The same parent with the call built by [gSPBranchList]. *)
Definition branchlist_stream : memory :=
  load_at 0x1000 [gSPBranchList 0x2000; render_b; gSPEndDisplayList]
    (load_at 0x2000 [render_a; gSPEndDisplayList] zero_mem).

(** The same parent with a branch command word. *)
Definition branch_stream : memory :=
  load_at 0x1000 [branch_command 0x2000; render_b; gSPEndDisplayList]
    (load_at 0x2000 [render_a; gSPEndDisplayList] zero_mem).

(** A branch whose target word is [NULL]. *)
Definition null_branch_stream : memory :=
  load_at 0x1000 [branch_command 0; render_b; gSPEndDisplayList] zero_mem.

(** A call whose target word is [NULL]. *)
Definition null_call_stream : memory :=
  load_at 0x1000 [gSPDisplayList 0; render_b; gSPEndDisplayList] zero_mem.

(** Mutual branches: A at 0x1000 branches to B at 0x2000 and back. *)
Definition mutual_branch_stream : memory :=
  load_at 0x1000 [branch_command 0x2000]
    (load_at 0x2000 [branch_command 0x1000] zero_mem).

(** [gSPSegment(1, 0x1000)] followed by END. *)
Definition gSPSegment_stream : memory :=
  load_at 0x1000 [gSPSegment 1 0x1000; gSPEndDisplayList] zero_mem.

(** A segment command for entry 1, then END. *)
Definition segment_stream : memory :=
  load_at 0x1000 [segment_command 1 0x1000; gSPEndDisplayList] zero_mem.

(** Sixteen return addresses pending. *)
Definition full_depth : world :=
  {| nsp_segments := replicate 16 0;
     dl_stack := replicate 16 0x3000;
     dl_stack_top := 16;
     backend := [] |}.

(** A call into an empty child, met at full depth; 0x3000 holds END. *)
Definition deep_call_stream : memory :=
  load_at 0x1000 [gSPDisplayList 0x2000; render_b; gSPEndDisplayList]
    (load_at 0x2000 [gSPEndDisplayList] zero_mem).

(** A call whose target word carries segment 1 and offset 0x20. *)
Definition segmented_call_stream : memory :=
  load_at 0x1000 [gSPDisplayList 0x01000020; gSPEndDisplayList] zero_mem.

(** A branch into a child that itself calls: the child
    [CALL(0x3000), END] at 0x2000, its callee [RENDER(a), END] at 0x3000. *)
Definition branch_into_call_stream : memory :=
  load_at 0x1000 [branch_command 0x2000; render_b; gSPEndDisplayList]
    (load_at 0x2000 [gSPDisplayList 0x3000; gSPEndDisplayList]
       (load_at 0x3000 [render_a; gSPEndDisplayList] zero_mem)).

(** A list that calls itself: every iteration pushes 0x1008 again. *)
Definition self_call_stream : memory :=
  load_at 0x1000 [gSPDisplayList 0x1000; gSPEndDisplayList] zero_mem.

End Samples.

(** ** Successive invocations *)

Module Invocations.
Import StackWalker.

(** No pushing CALL sits in the last [Gfx] slot of the address space, where
    [dl + 1] would wrap to [NULL]. *)
Definition no_pointer_wrap (mem : memory) : Prop :=
  forall a, opcode (mem a) = G_DL -> is_branch (mem a) = false ->
            w1 (mem a) <> 0 -> ptr_next a <> 0.

(** The statics at the start of each of a series of top-level calls
    (fuel, memory, root list), each made on the statics the one before
    returned; the series stops at a call that does not return. *)
Fixpoint invocation_starts (calls : list (nat * memory * Z)) (w : world)
  : list world :=
  match calls with
  | [] => []
  | (fuel, mem, dl) :: rest =>
      w :: match nsp_process_display_list fuel mem dl w with
           | None => []
           | Some w' => invocation_starts rest w'
           end
  end.

(** The stack is within bounds and every slot in use holds a non-null
    return address. *)
Definition slots_set (w : world) : Prop :=
  stack_ok w /\
  forall j, 0 <= j < dl_stack_top w -> array_get (dl_stack w) j <> 0.

End Invocations.

(** ** gbi_nsp.h: further builders *)

Module Builders.

(** [gSPTextureRectangle(pkt, ulx, uly, lrx, lry, tile, s, t, dsdx, dtdy)]
    appends two [Gfx] entries: the [G_TEXRECT] command and a second word
    pair holding the texture coordinates and their steps. *)
Definition gSPTextureRectangle (ulx uly lrx lry tile s t dsdx dtdy : Z)
  : list Gfx :=
  [ {| w0 := u32 (Z.lor (Z.lor (Z.shiftl G_TEXRECT 24) (Z.shiftl lrx 12)) lry);
       w1 := u32 (Z.lor (Z.lor (Z.shiftl tile 24) (Z.shiftl ulx 12)) uly) |};
    {| w0 := u32 (Z.lor (Z.shiftl s 16) t);
       w1 := u32 (Z.lor (Z.shiftl dsdx 16) dtdy) |} ].

End Builders.

(** ** os_stubs.h: the message queue *)

Module OsStubs.

(** [OSMesgQueue].  [msg] is the buffer the queue was created on (an
    [OSMesg] is a pointer-sized word); the other fields are [s32]. *)
Record OSMesgQueue : Type := mkQueue {
  msg : list Z;
  msgCount : Z;
  validCount : Z;
  first : Z
}.

Definition OS_MESG_NOBLOCK : Z := 0.
Definition OS_MESG_BLOCK : Z := 1.

Definition osCreateMesgQueue (buffer : list Z) (count : Z) : OSMesgQueue :=
  {| msg := buffer; msgCount := count; validCount := 0; first := 0 |}.

(** Returns the status and the queue afterwards.  [%] is C's remainder. *)
Definition osSendMesg (mq : OSMesgQueue) (m : Z) (flag : Z)
  : Z * OSMesgQueue :=
  if validCount mq <? msgCount mq then
    let idx := Z.rem (first mq + validCount mq) (msgCount mq) in
    (0, {| msg := <[Z.to_nat idx := m]> (msg mq);
           msgCount := msgCount mq;
           validCount := validCount mq + 1;
           first := first mq |})
  else (-1, mq).

(** [want] tells whether the caller passed a non-null [msg] pointer; the
    second component is what is stored through it. *)
Definition osRecvMesg (mq : OSMesgQueue) (want : bool) (flag : Z)
  : Z * option Z * OSMesgQueue :=
  if validCount mq >? 0 then
    (0,
     if want then Some (array_get (msg mq) (first mq)) else None,
     {| msg := msg mq;
        msgCount := msgCount mq;
        validCount := validCount mq - 1;
        first := Z.rem (first mq + 1) (msgCount mq) |})
  else (-1, None, mq).

Definition osJamMesg (mq : OSMesgQueue) (m : Z) (flag : Z)
  : Z * OSMesgQueue := osSendMesg mq m flag.

(** The messages waiting in the queue, oldest first. *)
Definition pending (mq : OSMesgQueue) : list Z :=
  map (fun i => array_get (msg mq)
                  (Z.rem (first mq + Z.of_nat i) (msgCount mq)))
      (seq 0 (Z.to_nat (validCount mq))).

(** The queue sits on a buffer of [msgCount] slots and its indices are
    within it. *)
Definition queue_ok (mq : OSMesgQueue) : Prop :=
  0 < msgCount mq /\
  length (msg mq) = Z.to_nat (msgCount mq) /\
  0 <= validCount mq <= msgCount mq /\
  0 <= first mq < msgCount mq.

(** Sending a list of messages in turn; the statuses, then the queue. *)
Fixpoint send_all (mq : OSMesgQueue) (ms : list Z) : list Z * OSMesgQueue :=
  match ms with
  | [] => ([], mq)
  | m :: rest =>
      let '(r, mq1) := osSendMesg mq m OS_MESG_NOBLOCK in
      let '(rs, mq2) := send_all mq1 rest in
      (r :: rs, mq2)
  end.

(** Receiving [n] times in turn; what each call stored, then the queue. *)
Fixpoint recv_n (mq : OSMesgQueue) (n : nat) : list (option Z) * OSMesgQueue :=
  match n with
  | O => ([], mq)
  | S n' =>
      let '(_, got, mq1) := osRecvMesg mq true OS_MESG_NOBLOCK in
      let '(gs, mq2) := recv_n mq1 n' in
      (got :: gs, mq2)
  end.

(** A three-slot queue holding 12 and 13, the oldest in slot 1: the next
    send wraps around to slot 0. *)
Definition wrapped_queue : OSMesgQueue :=
  {| msg := [11; 12; 13]; msgCount := 3; validCount := 2; first := 1 |}.

End OsStubs.

(** ** input_nsp.c and the pad manager replacement *)

Module Input.

Definition u16 (x : Z) : Z := x mod 2 ^ 16.

(** Conversion to [s8]. *)
Definition s8 (x : Z) : Z := (x + 128) mod 256 - 128.

Definition CONT_A : Z := 0x8000.
Definition CONT_B : Z := 0x4000.
Definition CONT_G : Z := 0x2000.
Definition CONT_START : Z := 0x1000.
Definition CONT_UP : Z := 0x0800.
Definition CONT_DOWN : Z := 0x0400.
Definition CONT_LEFT : Z := 0x0200.
Definition CONT_RIGHT : Z := 0x0100.
Definition CONT_L : Z := 0x0020.
Definition CONT_R : Z := 0x0010.
Definition CONT_E : Z := 0x0008.
Definition CONT_D : Z := 0x0004.
Definition CONT_C : Z := 0x0002.
Definition CONT_F : Z := 0x0001.

Record OSContPad : Type := mkPad {
  button : Z;
  stick_x : Z;
  stick_y : Z;
  errnum : Z
}.

(** [key_map[]]: scancode and button mask, closed by the sentinel. *)
Definition key_map : list (Z * Z) :=
  [ (0x26, CONT_A); (0x33, CONT_B); (0x39, CONT_START); (0x36, CONT_R);
    (0x25, CONT_G); (0x148, CONT_E); (0x150, CONT_D); (0x14B, CONT_C);
    (0x14D, CONT_F); (0, 0) ].

Definition STICK_MAG : Z := 80.

(** [stick_map[]]: scancode, dx, dy, closed by the sentinel. *)
Definition stick_map : list (Z * Z * Z) :=
  [ (0x11, 0, STICK_MAG); (0x1F, 0, - STICK_MAG); (0x1E, - STICK_MAG, 0);
    (0x20, STICK_MAG, 0); (0, 0, 0) ].

(** [for (i = 0; key_map[i].key != 0; i++) if (isKeyPressed(...)) button |= ...] *)
Fixpoint poll_buttons (isKeyPressed : Z -> bool) (table : list (Z * Z))
    (b : Z) : Z :=
  match table with
  | [] => b
  | (key, mask) :: rest =>
      if key =? 0 then b
      else poll_buttons isKeyPressed rest
             (if isKeyPressed key then u16 (Z.lor b mask) else b)
  end.

(** The stick loop; the running [stick_x], [stick_y] are [s8]. *)
Fixpoint poll_stick (isKeyPressed : Z -> bool) (table : list (Z * Z * Z))
    (xy : Z * Z) : Z * Z :=
  match table with
  | [] => xy
  | (key, dx, dy) :: rest =>
      if key =? 0 then xy
      else poll_stick isKeyPressed rest
             (if isKeyPressed key then (s8 (fst xy + dx), s8 (snd xy + dy))
              else xy)
  end.

(** The four clamping statements applied to one axis. *)
Definition clamp_axis (v : Z) : Z :=
  let v1 := if v >? 80 then 80 else v in
  if v1 <? -80 then -80 else v1.

(** [input_nsp_poll] in the [TARGET_NSP] build; [isKeyPressed] is the
    keypad.  The result is the new [nsp_controller]. *)
Definition input_nsp_poll (isKeyPressed : Z -> bool) : OSContPad :=
  let b := poll_buttons isKeyPressed key_map 0 in
  let xy := poll_stick isKeyPressed stick_map (0, 0) in
  {| button := b;
     stick_x := clamp_axis (fst xy);
     stick_y := clamp_axis (snd xy);
     errnum := 0 |}.

(** [InputCompat]. *)
Record InputCompat : Type := mkInput {
  cur_button : Z; cur_x : Z; cur_y : Z; errno_ : Z;
  prev_button : Z; prev_x : Z; prev_y : Z; prev_errno : Z;
  press_button : Z; press_x : Z; press_y : Z;
  rel_button : Z; rel_x : Z; rel_y : Z
}.

(** An [InputCompat] after [memset(.., 0, ..)]. *)
Definition zero_input : InputCompat :=
  mkInput 0 0 0 0 0 0 0 0 0 0 0 0 0 0.

(** The statements on [input[0]] of [PadMgr_GetInput_Nsp]. *)
Definition update_port0 (pad : OSContPad) (i : InputCompat) : InputCompat :=
  let prev_b := cur_button i in
  let prev_x' := cur_x i in
  let prev_y' := cur_y i in
  let cur_b := button pad in
  let cur_x' := stick_x pad in
  let cur_y' := stick_y pad in
  {| cur_button := cur_b; cur_x := cur_x'; cur_y := cur_y'; errno_ := 0;
     prev_button := prev_b; prev_x := prev_x'; prev_y := prev_y';
     prev_errno := prev_errno i;
     press_button := u16 (Z.land (Z.lxor cur_b prev_b) cur_b);
     press_x := s8 (cur_x' - prev_x');
     press_y := s8 (cur_y' - prev_y');
     rel_button := u16 (Z.land (Z.lxor cur_b prev_b) prev_b);
     rel_x := rel_x i; rel_y := rel_y i |}.

(** [PadMgr_GetInput_Nsp(input, lockInput)] on the array [input]; yields
    the polled controller and the array afterwards. *)
Definition PadMgr_GetInput_Nsp (isKeyPressed : Z -> bool)
    (input : list InputCompat) (lockInput : Z)
  : OSContPad * list InputCompat :=
  let pad := input_nsp_poll isKeyPressed in
  if negb (lockInput =? 0) then
    (pad, replicate 4 zero_input ++ drop 4 input)
  else
    (pad,
     update_port0 pad (nth 0 input zero_input)
       :: replicate 3 zero_input ++ drop 4 input).

End Input.

(** ** Frame pacing: frame skip and the FPS counter *)

Module Frame.

(** What reaches the LCD. *)
Inductive lcd_event : Type := SwapBegin | SwapEnd.

(** [frameskip_counter] of nsp_replacements.c, the walker's statics and the
    calls made to the LCD so far. *)
Record frame_state : Type := mkFrame {
  frameskip_counter : Z;
  statics : world;
  lcd : list lcd_event
}.

(** [Graph_TaskSet00_Nsp]; [configFrameskip] and [gGfxMasterDL] are the
    globals it reads.  [None] when the display-list walk has not returned
    within the fuel. *)
Definition Graph_TaskSet00_Nsp (fuel : nat) (mem : memory)
    (configFrameskip gGfxMasterDL : Z) (st : frame_state)
  : option frame_state :=
  let counter := u32 (frameskip_counter st + 1) in
  if counter <=? configFrameskip then
    Some {| frameskip_counter := counter;
            statics := statics st;
            lcd := lcd st |}
  else
    match (if negb (gGfxMasterDL =? 0)
           then StackWalker.nsp_process_display_list fuel mem gGfxMasterDL
                  (statics st)
           else Some (statics st)) with
    | None => None
    | Some w' =>
        Some {| frameskip_counter := 0;
                statics := w';
                lcd := lcd st ++ [SwapBegin; SwapEnd] |}
    end.

(** [n] consecutive calls. *)
Fixpoint frames (n : nat) (fuel : nat) (mem : memory)
    (configFrameskip gGfxMasterDL : Z) (st : frame_state)
  : option frame_state :=
  match n with
  | O => Some st
  | S n' =>
      match Graph_TaskSet00_Nsp fuel mem configFrameskip gGfxMasterDL st with
      | None => None
      | Some st' => frames n' fuel mem configFrameskip gGfxMasterDL st'
      end
  end.

(** [nsp_frame_count], [nsp_last_fps_time], [nsp_current_fps]. *)
Record fps_state : Type := mkFps {
  nsp_frame_count : Z;
  nsp_last_fps_time : Z;
  nsp_current_fps : Z
}.

(** [nsp_update_fps]; [now] is what [tmr_ms()] returns. *)
Definition nsp_update_fps (now : Z) (st : fps_state) : fps_state :=
  let count := u32 (nsp_frame_count st + 1) in
  if u32 (now - nsp_last_fps_time st) >=? 1000 then
    {| nsp_frame_count := 0;
       nsp_last_fps_time := now;
       nsp_current_fps := count |}
  else
    {| nsp_frame_count := count;
       nsp_last_fps_time := nsp_last_fps_time st;
       nsp_current_fps := nsp_current_fps st |}.

(** [tmr_ms] as nsp_replacements.c defines it. *)
Definition tmr_ms : Z := 0.

(** [n] calls of [nsp_update_fps], the timer read at each. *)
Fixpoint update_fps_n (n : nat) (st : fps_state) : fps_state :=
  match n with
  | O => st
  | S n' => update_fps_n n' (nsp_update_fps tmr_ms st)
  end.

End Frame.

(** * Properties *)

(** ** Machine arithmetic *)

Lemma Gfx_eqb_eq (a b : Gfx) : Gfx_eqb a b = true <-> a = b.
Proof.
  destruct a as [a0 a1], b as [b0 b1]; unfold Gfx_eqb; simpl.
  rewrite andb_true_iff, !Z.eqb_eq. split.
  - intros [-> ->]; reflexivity.
  - intros [= -> ->]; split; reflexivity.
Qed.

Lemma land_24_bits (a : Z) : Z.land a 0x00FFFFFF = a mod 2 ^ 24.
Proof. change 0x00FFFFFF with (Z.ones 24). apply Z.land_ones; lia. Qed.

Lemma land_4_bits (a : Z) : Z.land a 0xF = a mod 16.
Proof. change 0xF with (Z.ones 4). rewrite Z.land_ones by lia. reflexivity. Qed.

Lemma segment_id_range (a : Z) : 0 <= Z.land a 0xF < 16.
Proof. rewrite land_4_bits. apply Z.mod_pos_bound; lia. Qed.

Lemma offset_range (a : Z) : 0 <= Z.land a 0x00FFFFFF < 2 ^ 24.
Proof. rewrite land_24_bits. apply Z.mod_pos_bound; lia. Qed.

Lemma uptr_small (x : Z) : 0 <= x < 2 ^ 32 -> uptr x = x.
Proof. intros H. unfold uptr. apply Z.mod_small; exact H. Qed.

Lemma advance_S (n : nat) (dl : Z) : advance (S n) dl = advance n (ptr_next dl).
Proof.
  unfold advance. induction n as [|n IH]; [reflexivity|].
  simpl in *. rewrite IH. reflexivity.
Qed.

(** ** Segment table *)

Section SegmentTable.

Variable segs : list Z.

Lemma set_segment_length (seg addr : Z) :
  length (StackWalker.set_segment segs seg addr) = length segs.
Proof. unfold StackWalker.set_segment. apply length_insert. Qed.

Lemma set_segment_same (seg addr : Z) :
  length segs = 16%nat ->
  array_get (StackWalker.set_segment segs seg addr) (Z.land seg 0xF) = addr.
Proof.
  intros Hlen. unfold array_get, StackWalker.set_segment.
  rewrite list_lookup_insert_eq; [reflexivity|].
  pose proof (segment_id_range seg). lia.
Qed.

Lemma set_segment_other (seg addr : Z) (i : nat) :
  i <> Z.to_nat (Z.land seg 0xF) ->
  StackWalker.set_segment segs seg addr !! i = segs !! i.
Proof.
  intros Hne. unfold StackWalker.set_segment.
  apply list_lookup_insert_ne. congruence.
Qed.

Lemma resolve_unfold (addr : Z) :
  StackWalker.nsp_segmented_to_virtual segs addr =
  if array_get segs ((addr / 2 ^ 24) mod 16) =? 0 then addr mod 2 ^ 24
  else (array_get segs ((addr / 2 ^ 24) mod 16) + addr mod 2 ^ 24) mod 2 ^ 32.
Proof.
  unfold StackWalker.nsp_segmented_to_virtual, uptr.
  rewrite land_4_bits, land_24_bits, Z.shiftr_div_pow2 by lia.
  reflexivity.
Qed.

Lemma resolve_range (addr : Z) :
  0 <= StackWalker.nsp_segmented_to_virtual segs addr < 2 ^ 32.
Proof.
  rewrite resolve_unfold.
  pose proof (Z.mod_pos_bound addr (2 ^ 24) ltac:(lia)).
  destruct (_ =? 0); [lia|]. apply Z.mod_pos_bound; lia.
Qed.

End SegmentTable.

(** C7.  Address resolution splits the encoded address into the segment id
    (bits 24..27) and the 24-bit offset, and returns the table entry plus the
    offset (in 32-bit pointer arithmetic) when the entry is set, the raw
    offset when it is zero.  After [set(1, 0x1000)] the encoded address
    (segment 1, offset 0x20) resolves to 0x1020; with entry 1 unset it
    resolves to 0x20.  Resolution is total and always yields a 32-bit
    address. *)
Theorem resolve_base_plus_offset (segs : list Z) :
  length segs = 16%nat ->
  (forall addr,
      let id := (addr / 2 ^ 24) mod 16 in
      let offset := addr mod 2 ^ 24 in
      (array_get segs id <> 0 ->
       StackWalker.nsp_segmented_to_virtual segs addr
       = (array_get segs id + offset) mod 2 ^ 32) /\
      (array_get segs id <> 0 -> 0 <= array_get segs id ->
       array_get segs id + offset < 2 ^ 32 ->
       StackWalker.nsp_segmented_to_virtual segs addr
       = array_get segs id + offset) /\
      (array_get segs id = 0 ->
       StackWalker.nsp_segmented_to_virtual segs addr = offset) /\
      0 <= StackWalker.nsp_segmented_to_virtual segs addr < 2 ^ 32) /\
  StackWalker.nsp_segmented_to_virtual
    (StackWalker.set_segment segs 1 0x1000) (Z.lor (Z.shiftl 1 24) 0x20)
  = 0x1020 /\
  (array_get segs 1 = 0 ->
   StackWalker.nsp_segmented_to_virtual segs (Z.lor (Z.shiftl 1 24) 0x20)
   = 0x20).
Proof.
  intros Hlen. split; [|split].
  - intros addr id offset. subst id offset.
    pose proof (Z.mod_pos_bound addr (2 ^ 24) ltac:(lia)) as Hoff.
    repeat split.
    + intros Hset. rewrite resolve_unfold.
      destruct (Z.eqb_spec (array_get segs ((addr / 2 ^ 24) mod 16)) 0);
        [contradiction|reflexivity].
    + intros Hset Hpos Hfit. rewrite resolve_unfold.
      destruct (Z.eqb_spec (array_get segs ((addr / 2 ^ 24) mod 16)) 0);
        [contradiction|]. apply Z.mod_small. lia.
    + intros Hunset. rewrite resolve_unfold, Hunset. reflexivity.
    + apply resolve_range.
    + apply resolve_range.
  - pose proof (set_segment_same segs 1 0x1000 Hlen) as Hget.
    change (Z.land 1 0xF) with 1 in Hget.
    rewrite resolve_unfold.
    change ((Z.lor (Z.shiftl 1 24) 0x20 / 2 ^ 24) mod 16) with 1.
    change (Z.lor (Z.shiftl 1 24) 0x20 mod 2 ^ 24) with 0x20.
    rewrite Hget. reflexivity.
  - intros Hunset. rewrite resolve_unfold.
    change ((Z.lor (Z.shiftl 1 24) 0x20 / 2 ^ 24) mod 16) with 1.
    change (Z.lor (Z.shiftl 1 24) 0x20 mod 2 ^ 24) with 0x20.
    rewrite Hunset. reflexivity.
Qed.

Lemma resolve_base_plus_offset_witness :
  length (nsp_segments boot) = 16%nat /\
  StackWalker.nsp_segmented_to_virtual
    (StackWalker.set_segment (nsp_segments boot) 1 0x1000)
    (Z.lor (Z.shiftl 1 24) 0x20) = 0x1020.
Proof.
  split; [reflexivity|].
  apply (resolve_base_plus_offset (nsp_segments boot)). reflexivity.
Defined.

(** C10.  The resolution that returns the raw offset for a zero table entry
    and the resolution that always adds the table entry compute the same
    address, for every table and every encoded address. *)
Theorem resolve_variants_agree (segs : list Z) (addr : Z) :
  StackWalker.nsp_segmented_to_virtual segs addr
  = RecursiveWalker.nsp_segmented_to_virtual segs addr.
Proof.
  unfold StackWalker.nsp_segmented_to_virtual,
    RecursiveWalker.nsp_segmented_to_virtual.
  destruct (Z.eqb_spec (array_get segs (Z.land (Z.shiftr addr 24) 0xF)) 0)
    as [Hz|Hnz]; [|reflexivity].
  rewrite Hz, Z.add_0_l. symmetry. apply uptr_small.
  pose proof (offset_range addr). lia.
Qed.

(** ** The explicit-stack walker: one iteration *)

Module WalkerFacts.
Import StackWalker.

Lemma dispatch_enddl (c : Z) : c = G_ENDDL -> dispatch c = OpEndDL.
Proof. intros ->. reflexivity. Qed.

Lemma dispatch_dl (c : Z) : c = G_DL -> dispatch c = OpDL.
Proof. intros ->. reflexivity. Qed.

Lemma dispatch_enddl_inv (c : Z) : dispatch c = OpEndDL -> c = G_ENDDL.
Proof.
  unfold dispatch. destruct (Z.eqb_spec c G_ENDDL); [trivial|].
  repeat (destruct (_ : bool); try discriminate).
Qed.

Lemma dispatch_dl_inv (c : Z) : dispatch c = OpDL -> c = G_DL.
Proof.
  unfold dispatch. destruct (c =? G_ENDDL); [discriminate|].
  destruct (Z.eqb_spec c G_DL); [trivial|].
  repeat (destruct (_ : bool); try discriminate).
Qed.

Lemma loop_body_inert (mem : memory) (dl : Z) (w : world) :
  inert (mem dl) = true -> loop_body mem dl w = Next (ptr_next dl) w.
Proof.
  unfold inert, loop_body.
  destruct (dispatch (opcode (mem dl))); try discriminate; reflexivity.
Qed.

Lemma loop_body_render (mem : memory) (dl : Z) (w : world) :
  dispatch (opcode (mem dl)) = OpRender ->
  loop_body mem dl w = Next (ptr_next dl) w.
Proof. intros H. apply loop_body_inert. unfold inert. rewrite H. reflexivity. Qed.

Lemma loop_body_end (mem : memory) (dl : Z) (w : world) :
  opcode (mem dl) = G_ENDDL ->
  loop_body mem dl w =
  if fst (dl_pop w) =? 0 then Return (snd (dl_pop w))
  else Next (fst (dl_pop w)) (snd (dl_pop w)).
Proof.
  intros H. unfold loop_body. rewrite (dispatch_enddl _ H).
  destruct (dl_pop w) as [parent w']. reflexivity.
Qed.

Lemma loop_body_dl (mem : memory) (dl : Z) (w : world) :
  opcode (mem dl) = G_DL ->
  loop_body mem dl w =
  if w1 (mem dl) =? 0 then Next (ptr_next dl) w
  else if is_branch (mem dl) then Next (w1 (mem dl)) w
       else Next (w1 (mem dl)) (dl_push (ptr_next dl) w).
Proof. intros H. unfold loop_body. rewrite (dispatch_dl _ H). reflexivity. Qed.

(** The loop returns only from the [G_ENDDL] case, and only when [dl_pop]
    hands back [NULL]. *)
Lemma loop_body_return (mem : memory) (dl : Z) (w w' : world) :
  loop_body mem dl w = Return w' <->
  opcode (mem dl) = G_ENDDL /\ fst (dl_pop w) = 0 /\ w' = snd (dl_pop w).
Proof.
  split.
  - intros H. unfold loop_body in H.
    destruct (dispatch (opcode (mem dl))) eqn:Hd.
    + destruct (dl_pop w) as [parent w2]; simpl.
      destruct (Z.eqb_spec parent 0); [|discriminate].
      injection H as <-. auto using dispatch_enddl_inv.
    + repeat (destruct (_ : bool) in H; try discriminate).
    + destruct (_ : bool) in H; discriminate.
    + discriminate.
    + discriminate.
    + discriminate.
  - intros (Hop & Hnull & ->). rewrite loop_body_end by assumption.
    rewrite Hnull. reflexivity.
Qed.

Lemma dl_pop_empty (w : world) :
  dl_stack_top w = 0 -> dl_pop w = (0, w).
Proof. intros H. unfold dl_pop. rewrite H. reflexivity. Qed.

Lemma dl_push_full (dl : Z) (w : world) :
  DL_STACK_SIZE <= dl_stack_top w -> dl_push dl w = w.
Proof.
  intros H. unfold dl_push.
  destruct (Z.ltb_spec (dl_stack_top w) DL_STACK_SIZE); [lia|reflexivity].
Qed.

Lemma dl_push_room (dl : Z) (w : world) :
  dl_stack_top w < DL_STACK_SIZE ->
  dl_push dl w =
  {| nsp_segments := nsp_segments w;
     dl_stack := <[Z.to_nat (dl_stack_top w) := dl]> (dl_stack w);
     dl_stack_top := dl_stack_top w + 1;
     backend := backend w |}.
Proof.
  intros H. unfold dl_push.
  destruct (Z.ltb_spec (dl_stack_top w) DL_STACK_SIZE); [reflexivity|lia].
Qed.

Lemma dl_push_stack_ok (dl : Z) (w : world) :
  stack_ok w -> stack_ok (dl_push dl w).
Proof.
  intros [Hlen Htop]. unfold dl_push, stack_ok in *.
  destruct (Z.ltb_spec (dl_stack_top w) DL_STACK_SIZE); simpl.
  - rewrite length_insert. split; [assumption|lia].
  - split; assumption.
Qed.

Lemma dl_pop_stack_ok (w : world) :
  stack_ok w -> stack_ok (snd (dl_pop w)).
Proof.
  intros [Hlen Htop]. unfold dl_pop, stack_ok in *.
  destruct (Z.gtb_spec (dl_stack_top w) 0); simpl.
  - split; [assumption|lia].
  - split; assumption.
Qed.

Lemma loop_body_stack_ok (mem : memory) (dl : Z) (w : world) :
  stack_ok w -> stack_ok (after (loop_body mem dl w)).
Proof.
  intros Hok. unfold loop_body.
  destruct (dispatch (opcode (mem dl))); simpl; try assumption.
  - pose proof (dl_pop_stack_ok w Hok) as Hpop.
    destruct (dl_pop w) as [parent w2]; simpl in *.
    destruct (parent =? 0); assumption.
  - destruct (w1 (mem dl) =? 0); [assumption|].
    destruct (is_branch (mem dl)); [assumption|].
    simpl. apply dl_push_stack_ok. assumption.
  - destruct (_ =? G_MW_SEGMENT); assumption.
Qed.

Lemma loop_body_backend (mem : memory) (dl : Z) (w : world) :
  backend (after (loop_body mem dl w)) = backend w.
Proof.
  unfold loop_body.
  destruct (dispatch (opcode (mem dl))); simpl; try reflexivity.
  - unfold dl_pop. destruct (dl_stack_top w >? 0); simpl;
      [destruct (_ =? 0)|]; reflexivity.
  - destruct (w1 (mem dl) =? 0); [reflexivity|].
    destruct (is_branch (mem dl)); [reflexivity|].
    simpl. unfold dl_push. destruct (_ <? _); reflexivity.
  - destruct (_ =? G_MW_SEGMENT); reflexivity.
Qed.

(** An iteration changes the segment table only by executing a segment
    command, and then in the one entry the command names. *)
Lemma loop_body_segments (mem : memory) (dl : Z) (w : world) (i : nat) :
  segment_set_target (mem dl) <> Some i ->
  nsp_segments (after (loop_body mem dl w)) !! i = nsp_segments w !! i.
Proof.
  unfold loop_body, segment_set_target.
  destruct (dispatch (opcode (mem dl))); simpl; intros Hi; try reflexivity.
  - unfold dl_pop. destruct (dl_stack_top w >? 0); simpl;
      [destruct (_ =? 0)|]; reflexivity.
  - destruct (w1 (mem dl) =? 0); [reflexivity|].
    destruct (is_branch (mem dl)); [reflexivity|].
    simpl. unfold dl_push. destruct (_ <? _); reflexivity.
  - change (Z.shiftr (w0 (mem dl)) 0) with (w0 (mem dl)).
    destruct (_ =? G_MW_SEGMENT); [|reflexivity].
    simpl. apply set_segment_other. congruence.
Qed.

Lemma loop_body_segments_length (mem : memory) (dl : Z) (w : world) :
  length (nsp_segments (after (loop_body mem dl w)))
  = length (nsp_segments w).
Proof.
  unfold loop_body.
  destruct (dispatch (opcode (mem dl))); simpl; try reflexivity.
  - unfold dl_pop. destruct (dl_stack_top w >? 0); simpl;
      [destruct (_ =? 0)|]; reflexivity.
  - destruct (w1 (mem dl) =? 0); [reflexivity|].
    destruct (is_branch (mem dl)); [reflexivity|].
    simpl. unfold dl_push. destruct (_ <? _); reflexivity.
  - destruct (_ =? G_MW_SEGMENT); [|reflexivity].
    simpl. apply set_segment_length.
Qed.

(** A command carrying the [G_MW_SEGMENT] index sets the entry
    [(offset / 4) & 0xF] to its second word. *)
Lemma loop_body_segment_set (mem : memory) (dl : Z) (w : world) :
  opcode (mem dl) = G_MOVEMEM ->
  Z.land (Z.shiftr (w0 (mem dl)) 8) 0xFF = G_MW_SEGMENT ->
  loop_body mem dl w =
  Next (ptr_next dl)
       (nsp_set_segment (Z.land (w0 (mem dl)) 0xFF / 4) (w1 (mem dl)) w).
Proof.
  intros Hop Hidx. unfold loop_body. rewrite Hop, Hidx. reflexivity.
Qed.

End WalkerFacts.

(** ** The explicit-stack walker: runs *)

Module RunFacts.
Import StackWalker WalkerFacts.

Lemma walk_returns_iff (fuel : nat) (mem : memory) (dl : Z) (w w' : world) :
  walk fuel mem dl w = Some w' <->
  exists k dl_k w_k,
    (k < fuel)%nat /\ iter k mem dl w = Some (dl_k, w_k) /\
    loop_body mem dl_k w_k = Return w'.
Proof.
  revert dl w. induction fuel as [|fuel IH]; intros dl w; cbn.
  - split; [discriminate|]. intros (k & _ & _ & Hk & _). lia.
  - split.
    + destruct (loop_body mem dl w) as [w2|dl2 w2] eqn:Hstep.
      * intros [= <-]. exists 0%nat, dl, w. repeat split; [lia|assumption].
      * intros Hw. apply IH in Hw as (k & dl_k & w_k & Hk & Hit & Hret).
        exists (S k), dl_k, w_k. cbn. rewrite Hstep.
        repeat split; [lia|assumption|assumption].
    + intros (k & dl_k & w_k & Hk & Hit & Hret). destruct k as [|k].
      * cbn in Hit. injection Hit as <- <-. rewrite Hret. reflexivity.
      * cbn in Hit. destruct (loop_body mem dl w) as [w2|dl2 w2];
          [discriminate|].
        apply IH. exists k, dl_k, w_k. repeat split; [lia|assumption|assumption].
Qed.

Lemma walk_more_fuel (n m : nat) (mem : memory) (dl : Z) (w w' : world) :
  walk n mem dl w = Some w' -> (n <= m)%nat -> walk m mem dl w = Some w'.
Proof.
  intros Hw Hle. apply walk_returns_iff in Hw as (k & dl_k & w_k & Hk & H).
  apply walk_returns_iff. exists k, dl_k, w_k. split; [lia|exact H].
Qed.

(** A property of the statics kept by every iteration holds all along a
    run and at its return. *)
Section Invariant.
Variable mem : memory.
Variable P : world -> Prop.
Hypothesis P_step : forall dl w, P w -> P (after (loop_body mem dl w)).

Lemma iter_invariant (n : nat) (dl : Z) (w : world) (dl_n : Z) (w_n : world) :
  P w -> iter n mem dl w = Some (dl_n, w_n) -> P w_n.
Proof.
  revert dl w. induction n as [|n IH]; intros dl w Hw; cbn.
  - intros [= <- <-]. exact Hw.
  - pose proof (P_step dl w Hw) as Hs.
    destruct (loop_body mem dl w) as [|dl2 w2]; [discriminate|].
    apply IH. exact Hs.
Qed.

Lemma walk_invariant (fuel : nat) (dl : Z) (w w' : world) :
  P w -> walk fuel mem dl w = Some w' -> P w'.
Proof.
  intros Hw Hwalk.
  apply walk_returns_iff in Hwalk as (k & dl_k & w_k & _ & Hit & Hret).
  pose proof (iter_invariant k dl w dl_k w_k Hw Hit) as Hk.
  pose proof (P_step dl_k w_k Hk) as Hs. rewrite Hret in Hs. exact Hs.
Qed.
End Invariant.

(** Straight-line code: a run of commands that only advance the cursor. *)
Lemma iter_inert (cmds : list Gfx) (mem : memory) (dl : Z) (w : world) :
  stream_at mem dl cmds = true -> forallb inert cmds = true ->
  iter (length cmds) mem dl w = Some (advance (length cmds) dl, w).
Proof.
  revert dl. induction cmds as [|g cmds IH]; intros dl Hat Hin.
  - reflexivity.
  - cbn in Hat, Hin. apply andb_true_iff in Hat as [Hg Hat].
    apply andb_true_iff in Hin as [Hi Hin]. apply Gfx_eqb_eq in Hg.
    cbn [length]. rewrite advance_S. cbn [iter].
    rewrite loop_body_inert by (rewrite Hg; exact Hi).
    apply IH; assumption.
Qed.

Lemma cursors_inert (cmds : list Gfx) (mem : memory) (dl : Z) (w : world)
    (n : nat) :
  stream_at mem dl cmds = true -> forallb inert cmds = true ->
  visited (length cmds + n) mem dl w
  = cmds ++ visited n mem (advance (length cmds) dl) w.
Proof.
  revert dl. induction cmds as [|g cmds IH]; intros dl Hat Hin.
  - reflexivity.
  - cbn in Hat, Hin. apply andb_true_iff in Hat as [Hg Hat].
    apply andb_true_iff in Hin as [Hi Hin]. apply Gfx_eqb_eq in Hg.
    cbn [length]. rewrite advance_S. unfold visited in *. cbn.
    rewrite loop_body_inert by (rewrite Hg; exact Hi).
    rewrite Hg. f_equal. apply IH; assumption.
Qed.

Lemma walk_after_iter (k n : nat) (mem : memory) (dl : Z) (w : world)
    (dl_k : Z) (w_k : world) :
  iter k mem dl w = Some (dl_k, w_k) ->
  walk (k + n) mem dl w = walk n mem dl_k w_k.
Proof.
  revert dl w. induction k as [|k IH]; intros dl w; cbn.
  - intros [= <- <-]. reflexivity.
  - destruct (loop_body mem dl w) as [|dl2 w2]; [discriminate|]. apply IH.
Qed.

Lemma walk_short (k n : nat) (mem : memory) (dl : Z) (w : world)
    (dl_k : Z) (w_k : world) :
  iter k mem dl w = Some (dl_k, w_k) -> (n <= k)%nat ->
  walk n mem dl w = None.
Proof.
  revert k dl w. induction n as [|n IH]; intros k dl w Hit Hle; [reflexivity|].
  destruct k as [|k]; [lia|]. cbn in *.
  destruct (loop_body mem dl w) as [|dl2 w2]; [discriminate|].
  apply (IH k); [assumption|lia].
Qed.

(** Entries that no visited segment command names are the same at the
    return as at the start of the walk. *)
Lemma walk_segments (fuel : nat) (mem : memory) (dl : Z) (w w' : world)
    (i : nat) :
  walk fuel mem dl w = Some w' ->
  overwritten fuel mem dl w i = false ->
  nsp_segments w' !! i = nsp_segments w !! i.
Proof.
  revert dl w. induction fuel as [|fuel IH]; intros dl w; [discriminate|].
  unfold overwritten, visited. cbn.
  intros Hwalk Hover. apply orb_false_iff in Hover as [Hhere Hrest].
  assert (Hne : segment_set_target (mem dl) <> Some i).
  { intros Heq. rewrite Heq, Nat.eqb_refl in Hhere. discriminate. }
  pose proof (loop_body_segments mem dl w i Hne) as Hstep.
  destruct (loop_body mem dl w) as [w2|dl2 w2]; cbn in Hstep.
  - injection Hwalk as <-. exact Hstep.
  - rewrite <- Hstep. apply (IH dl2 w2); assumption.
Qed.

End RunFacts.

Module StreamFacts.
Import StackWalker WalkerFacts RunFacts.

Lemma stream_at_app (mem : memory) (dl : Z) (l1 l2 : list Gfx) :
  stream_at mem dl (l1 ++ l2)
  = stream_at mem dl l1 && stream_at mem (advance (length l1) dl) l2.
Proof.
  revert dl. induction l1 as [|g l1 IH]; intros dl; [reflexivity|].
  cbn [length]. rewrite advance_S. cbn. rewrite IH, andb_assoc. reflexivity.
Qed.

(** A straight-line stream closed by END, walked with no return address
    pending: the loop returns at the END, not before, with the statics as
    they were. *)
Lemma walk_inert_then_end (cmds : list Gfx) (e : Gfx) (mem : memory)
    (dl : Z) (w : world) :
  stream_at mem dl (cmds ++ [e]) = true -> forallb inert cmds = true ->
  opcode e = G_ENDDL -> dl_stack_top w = 0 ->
  walk (S (length cmds)) mem dl w = Some w /\
  (forall n, (n <= length cmds)%nat -> walk n mem dl w = None) /\
  visited (S (length cmds)) mem dl w = cmds ++ [e].
Proof.
  intros Hat Hin He Htop. rewrite stream_at_app in Hat.
  apply andb_true_iff in Hat as [Hcmds Hend]. cbn in Hend.
  rewrite andb_true_r in Hend. apply Gfx_eqb_eq in Hend.
  pose proof (iter_inert cmds mem dl w Hcmds Hin) as Hit.
  assert (Hlast : loop_body mem (advance (length cmds) dl) w = Return w).
  { apply loop_body_return. rewrite Hend, dl_pop_empty by assumption. auto. }
  repeat split.
  - replace (S (length cmds)) with (length cmds + 1)%nat by lia.
    rewrite (walk_after_iter _ _ _ _ _ _ _ Hit). cbn. rewrite Hlast.
    reflexivity.
  - intros n Hn. exact (walk_short _ _ _ _ _ _ _ Hit Hn).
  - replace (S (length cmds)) with (length cmds + 1)%nat by lia.
    rewrite cursors_inert by assumption. unfold visited. cbn.
    rewrite Hend, Hlast. reflexivity.
Qed.

(** Two streams that branch to each other keep the loop running for any
    number of iterations. *)
Section MutualBranches.
Variables (mem : memory) (A B : Z).
Hypothesis A_not_null : A <> 0.
Hypothesis B_not_null : B <> 0.
Hypothesis A_branches : opcode (mem A) = G_DL /\ is_branch (mem A) = true.
Hypothesis A_target : w1 (mem A) = B.
Hypothesis B_branches : opcode (mem B) = G_DL /\ is_branch (mem B) = true.
Hypothesis B_target : w1 (mem B) = A.

Lemma mutual_step_A (w : world) : loop_body mem A w = Next B w.
Proof.
  destruct A_branches as [Hop Hbr]. rewrite loop_body_dl by assumption.
  rewrite A_target, Hbr. destruct (Z.eqb_spec B 0); [contradiction|reflexivity].
Qed.

Lemma mutual_step_B (w : world) : loop_body mem B w = Next A w.
Proof.
  destruct B_branches as [Hop Hbr]. rewrite loop_body_dl by assumption.
  rewrite B_target, Hbr. destruct (Z.eqb_spec A 0); [contradiction|reflexivity].
Qed.

Lemma mutual_walk (fuel : nat) (w : world) :
  walk fuel mem A w = None /\ walk fuel mem B w = None.
Proof.
  induction fuel as [|fuel [IHA IHB]]; [split; reflexivity|].
  cbn. rewrite mutual_step_A, mutual_step_B. split; assumption.
Qed.

Lemma mutual_cursors (fuel : nat) (w : world) :
  length (cursors fuel mem A w) = fuel /\
  length (cursors fuel mem B w) = fuel.
Proof.
  induction fuel as [|fuel [IHA IHB]]; [split; reflexivity|].
  cbn. rewrite mutual_step_A, mutual_step_B. split; congruence.
Qed.

Lemma mutual_recursion (fuel : nat) :
  RecursiveWalker.process_loop fuel mem A = None /\
  RecursiveWalker.process_loop fuel mem B = None.
Proof.
  destruct A_branches as [HopA _], B_branches as [HopB _].
  unfold opcode in HopA, HopB.
  induction fuel as [|fuel [IHA IHB]]; [split; reflexivity|].
  cbn. rewrite HopA, HopB, A_target, B_target, IHA, IHB. cbn.
  destruct (Z.eqb_spec A 0); [contradiction|].
  destruct (Z.eqb_spec B 0); [contradiction|]. split; reflexivity.
Qed.
End MutualBranches.

Lemma process_returns_iff (fuel : nat) (mem : memory) (dl : Z) (w w' : world) :
  dl <> 0 ->
  (nsp_process_display_list fuel mem dl w = Some w' <->
   exists k dl_k w_k,
     (k < fuel)%nat /\
     iter k mem dl (reset_stack w) = Some (dl_k, w_k) /\
     opcode (mem dl_k) = G_ENDDL /\ fst (dl_pop w_k) = 0 /\
     w' = snd (dl_pop w_k)).
Proof.
  intros Hdl. unfold nsp_process_display_list.
  destruct (Z.eqb_spec dl 0); [contradiction|].
  rewrite walk_returns_iff.
  split; intros (k & dl_k & w_k & Hk & Hit & Hret);
    exists k, dl_k, w_k; (split; [exact Hk|split; [exact Hit|]]);
    apply loop_body_return; exact Hret.
Qed.

End StreamFacts.

(** ** The call stack across a whole invocation *)

Module StackFacts.
Import StackWalker WalkerFacts RunFacts Invocations.

Lemma slots_set_reset (w : world) :
  length (dl_stack w) = 16%nat -> slots_set (reset_stack w).
Proof.
  intros Hlen. split.
  - split; [exact Hlen|]. cbv. split; discriminate.
  - cbn. intros j Hj. lia.
Qed.

Lemma slots_set_step (mem : memory) :
  no_pointer_wrap mem ->
  forall dl w, slots_set w -> slots_set (after (loop_body mem dl w)).
Proof.
  intros Hwrap dl w [Hok Hslots].
  split; [apply loop_body_stack_ok; exact Hok|].
  pose proof Hok as [Hlen Htop]. unfold loop_body.
  destruct (dispatch (opcode (mem dl))) eqn:Hd; cbn [after];
    try exact Hslots.
  - unfold dl_pop. destruct (Z.gtb_spec (dl_stack_top w) 0).
    + destruct (_ =? 0); cbn; intros j Hj; apply Hslots; lia.
    + cbn. exact Hslots.
  - destruct (Z.eqb_spec (w1 (mem dl)) 0) as [|Hchild]; [exact Hslots|].
    destruct (is_branch (mem dl)) eqn:Hbr; [exact Hslots|]. cbn [after].
    pose proof (Hwrap dl (dispatch_dl_inv _ Hd) Hbr Hchild) as Hret.
    unfold dl_push.
    destruct (Z.ltb_spec (dl_stack_top w) DL_STACK_SIZE); [|exact Hslots].
    cbn. intros j Hj. unfold array_get.
    destruct (Z.eq_dec j (dl_stack_top w)) as [->|Hne].
    * rewrite list_lookup_insert_eq; [exact Hret|].
      rewrite Hlen. unfold DL_STACK_SIZE in *. lia.
    * rewrite list_lookup_insert_ne by lia. apply Hslots. lia.
  - destruct (_ =? G_MW_SEGMENT); exact Hslots.
Qed.

Lemma slots_set_return (mem : memory) (dl : Z) (w w' : world) :
  slots_set w -> loop_body mem dl w = Return w' -> dl_stack_top w' = 0.
Proof.
  intros [[Hlen Htop] Hslots] Hret.
  apply loop_body_return in Hret as (_ & Hnull & ->).
  unfold dl_pop in *. destruct (Z.gtb_spec (dl_stack_top w) 0).
  - cbn in Hnull. exfalso. apply (Hslots (dl_stack_top w - 1)); [lia|].
    exact Hnull.
  - cbn. lia.
Qed.

(** A returning call on a non-null list leaves the stack empty; a call on
    [NULL] leaves the statics as they are. *)
Lemma process_leaves_stack_empty (fuel : nat) (mem : memory) (dl : Z)
    (w w' : world) :
  no_pointer_wrap mem -> length (dl_stack w) = 16%nat ->
  nsp_process_display_list fuel mem dl w = Some w' ->
  (dl = 0 -> w' = w) /\
  (dl <> 0 -> dl_stack_top w' = 0) /\
  length (dl_stack w') = 16%nat.
Proof.
  intros Hwrap Hlen Hret. unfold nsp_process_display_list in Hret.
  destruct (Z.eqb_spec dl 0) as [Hnull|Hdl].
  - injection Hret as <-. repeat split; [contradiction|exact Hlen].
  - apply walk_returns_iff in Hret as (k & dl_k & w_k & _ & Hit & Hstep).
    pose proof (iter_invariant mem slots_set (slots_set_step mem Hwrap)
                  k dl (reset_stack w) dl_k w_k (slots_set_reset w Hlen) Hit)
      as Hk.
    split; [contradiction|]. split.
    + intros _. exact (slots_set_return mem dl_k w_k w' Hk Hstep).
    + pose proof (slots_set_step mem Hwrap dl_k w_k Hk) as [[Hl _] _].
      rewrite Hstep in Hl. exact Hl.
Qed.

Lemma invocation_starts_empty (calls : list (nat * memory * Z)) (w : world) :
  Forall (fun c => no_pointer_wrap (snd (fst c))) calls ->
  length (dl_stack w) = 16%nat -> dl_stack_top w = 0 ->
  Forall (fun s => dl_stack_top s = 0) (invocation_starts calls w).
Proof.
  revert w. induction calls as [|[[fuel mem] dl] rest IH];
    intros w Hwrap Hlen Hempty; cbn [invocation_starts].
  - constructor.
  - apply Forall_cons in Hwrap as [Hm Hrest]. cbn in Hm.
    constructor; [exact Hempty|].
    destruct (nsp_process_display_list fuel mem dl w) as [w'|] eqn:Hret;
      [|constructor].
    destruct (process_leaves_stack_empty fuel mem dl w w' Hm Hlen Hret)
      as (Hnull & Hlist & Hlen').
    apply IH; [exact Hrest|exact Hlen'|].
    destruct (Z.eq_dec dl 0) as [Hz|Hnz].
    + rewrite (Hnull Hz). exact Hempty.
    + exact (Hlist Hnz).
Qed.

Lemma call_stream_no_pointer_wrap : no_pointer_wrap Samples.call_stream.
Proof.
  intros a Hop _ _ Hwrap. unfold ptr_next, uptr, sizeof_Gfx in Hwrap.
  unfold Samples.call_stream, load_at in Hop. cbn [length] in Hop.
  destruct ((0x1000 <=? a) && (a <? 0x1000 + sizeof_Gfx * Z.of_nat 3)
            && ((a - 0x1000) mod sizeof_Gfx =? 0)) eqn:H1.
  - apply andb_true_iff in H1 as [H1 _]. apply andb_true_iff in H1 as [Hlo Hhi].
    apply Z.leb_le in Hlo. apply Z.ltb_lt in Hhi. unfold sizeof_Gfx in Hhi.
    rewrite Z.mod_small in Hwrap by lia. lia.
  - destruct ((0x2000 <=? a) && (a <? 0x2000 + sizeof_Gfx * Z.of_nat 2)
              && ((a - 0x2000) mod sizeof_Gfx =? 0)) eqn:H2.
    + apply andb_true_iff in H2 as [H2 _].
      apply andb_true_iff in H2 as [Hlo Hhi].
      apply Z.leb_le in Hlo. apply Z.ltb_lt in Hhi. unfold sizeof_Gfx in Hhi.
      rewrite Z.mod_small in Hwrap by lia. lia.
    + discriminate Hop.
Qed.

(** While a call has not returned, its loop state is the one [iter]
    gives. *)
Lemma walk_running_iff (fuel : nat) (mem : memory) (dl : Z) (w : world) :
  walk fuel mem dl w = None <->
  exists dl_f w_f, iter fuel mem dl w = Some (dl_f, w_f).
Proof.
  revert dl w. induction fuel as [|fuel IH]; intros dl w; cbn.
  - split; [eauto|reflexivity].
  - destruct (loop_body mem dl w) as [w1|dl1 w1].
    + split; [discriminate|]. intros (? & ? & H). discriminate.
    + apply IH.
Qed.

End StackFacts.

(** * The claims *)

Import StackWalker.

(** C1 (as the code has it).  The walker keeps no instruction count: for
    every memory, root list and statics, a call of
    [nsp_process_display_list] returns exactly when the list is [NULL] or
    the walk meets a [G_ENDDL] for which [dl_pop] yields no parent, and
    until then the loop is still running.  On two streams that branch to
    each other, A -> B -> A, neither the explicit-stack walker nor the
    recursive one returns, whatever number of iterations is granted, and
    the explicit-stack walker has executed that many commands. *)
Theorem process_runs_until_final_end :
  (forall fuel mem dl v v',
     nsp_process_display_list fuel mem dl v = Some v' <->
     (dl = 0 /\ v' = v) \/
     (dl <> 0 /\
      exists k dl_k w_k,
        (k < fuel)%nat /\
        iter k mem dl (reset_stack v) = Some (dl_k, w_k) /\
        opcode (mem dl_k) = G_ENDDL /\ fst (dl_pop w_k) = 0 /\
        v' = snd (dl_pop w_k))) /\
  (forall fuel mem dl v,
     nsp_process_display_list fuel mem dl v = None <->
     dl <> 0 /\
     exists dl_f w_f, iter fuel mem dl (reset_stack v) = Some (dl_f, w_f)) /\
  (forall mem A B w,
     A <> 0 -> B <> 0 ->
     opcode (mem A) = G_DL /\ is_branch (mem A) = true -> w1 (mem A) = B ->
     opcode (mem B) = G_DL /\ is_branch (mem B) = true -> w1 (mem B) = A ->
     (forall fuel, nsp_process_display_list fuel mem A w = None) /\
     (forall fuel, length (cursors fuel mem A (reset_stack w)) = fuel) /\
     (forall fuel, RecursiveWalker.nsp_process_display_list fuel mem A = None)).
Proof.
  split; [|split].
  - intros fuel mem dl v v'. destruct (Z.eq_dec dl 0) as [->|Hdl].
    + unfold nsp_process_display_list. cbn. split.
      * intros [= <-]. left. auto.
      * intros [[_ ->]|[Hne _]]; [reflexivity|contradiction].
    + rewrite (StreamFacts.process_returns_iff fuel mem dl v v' Hdl). split.
      * intros H. right. split; [exact Hdl|exact H].
      * intros [[Hz _]|[_ H]]; [contradiction|exact H].
  - intros fuel mem dl v. unfold nsp_process_display_list.
    destruct (Z.eqb_spec dl 0) as [Hz|Hdl].
    + split; [discriminate|]. intros [Hne _]. contradiction.
    + rewrite StackFacts.walk_running_iff. split.
      * intros H. split; [exact Hdl|exact H].
      * intros [_ H]. exact H.
  - intros mem A B w HA HB HbrA HtA HbrB HtB. repeat split.
    + intros fuel. unfold nsp_process_display_list.
      destruct (Z.eqb_spec A 0); [contradiction|].
      apply (StreamFacts.mutual_walk mem A B); assumption.
    + intros fuel. apply (StreamFacts.mutual_cursors mem A B); assumption.
    + intros fuel. unfold RecursiveWalker.nsp_process_display_list.
      destruct (Z.eqb_spec A 0); [contradiction|].
      apply (StreamFacts.mutual_recursion mem A B); assumption.
Qed.

Lemma process_runs_until_final_end_witness :
  nsp_process_display_list 1000 Samples.mutual_branch_stream 0x1000 boot
  = None /\
  length (cursors 1000 Samples.mutual_branch_stream 0x1000 (reset_stack boot))
  = 1000%nat /\
  (nsp_process_display_list 3 Samples.render_stream 0x1000 boot
   = Some (reset_stack boot) <->
   (0x1000 = 0 /\ reset_stack boot = boot) \/
   (0x1000 <> 0 /\
    exists k dl_k w_k,
      (k < 3)%nat /\
      iter k Samples.render_stream 0x1000 (reset_stack boot)
      = Some (dl_k, w_k) /\
      opcode (Samples.render_stream dl_k) = G_ENDDL /\
      fst (dl_pop w_k) = 0 /\ reset_stack boot = snd (dl_pop w_k))).
Proof.
  destruct process_runs_until_final_end as (Hiff & _ & Hmutual).
  destruct (Hmutual Samples.mutual_branch_stream 0x1000 0x2000 boot
              ltac:(discriminate) ltac:(discriminate)
              (conj eq_refl eq_refl) eq_refl (conj eq_refl eq_refl) eq_refl)
    as (Hnone & Hlen & _).
  split; [exact (Hnone 1000%nat)|]. split; [exact (Hlen 1000%nat)|].
  exact (Hiff 3%nat Samples.render_stream 0x1000 boot (reset_stack boot)).
Defined.

(** C1, counterexample.  With A at 0x1000 branching to B at 0x2000 and B
    branching back, no number of iterations makes the call return. *)
Lemma mutual_branches_never_return :
  ~ exists fuel w',
      nsp_process_display_list fuel Samples.mutual_branch_stream 0x1000 boot
      = Some w'.
Proof.
  intros (fuel & w' & Hret).
  unfold nsp_process_display_list in Hret. cbn in Hret.
  pose proof (StreamFacts.mutual_walk Samples.mutual_branch_stream
                0x1000 0x2000 ltac:(lia) ltac:(lia)
                ltac:(split; reflexivity) ltac:(reflexivity)
                ltac:(split; reflexivity) ltac:(reflexivity)
                fuel (reset_stack boot)) as [HA _].
  rewrite HA in Hret. discriminate.
Qed.

(** C2 (as the code has it).  In every memory and state a command of the
    render group only advances the cursor by one command: it is neither
    address-resolved nor forwarded, and no call of
    [nsp_process_display_list], returned or still running, hands anything
    to the renderer.  Processing [RENDER(a), RENDER(b), END] visits [a],
    then [b], then the END, and returns at the third iteration, not before;
    the call stack is empty and the rest of the statics is as on entry. *)
Theorem render_stream_visited_not_submitted :
  (forall mem dl w, dispatch (opcode (mem dl)) = OpRender ->
     loop_body mem dl w = Next (ptr_next dl) w) /\
  (forall fuel mem dl v v',
     nsp_process_display_list fuel mem dl v = Some v' ->
     backend v' = backend v) /\
  (forall k mem dl v dl_k w_k,
     iter k mem dl (reset_stack v) = Some (dl_k, w_k) ->
     backend w_k = backend v) /\
  (forall mem dl w a b e,
     dl <> 0 ->
     stream_at mem dl [a; b; e] = true ->
     dispatch (opcode a) = OpRender ->
     dispatch (opcode b) = OpRender ->
     opcode e = G_ENDDL ->
     nsp_process_display_list 3 mem dl w = Some (reset_stack w) /\
     (forall fuel, (fuel < 3)%nat ->
        nsp_process_display_list fuel mem dl w = None) /\
     (forall fuel, (3 <= fuel)%nat ->
        nsp_process_display_list fuel mem dl w = Some (reset_stack w)) /\
     visited 3 mem dl (reset_stack w) = [a; b; e] /\
     backend (reset_stack w) = backend w).
Proof.
  split; [|split; [|split]].
  - intros mem dl w. apply WalkerFacts.loop_body_render.
  - intros fuel mem dl v v' Hrun. unfold nsp_process_display_list in Hrun.
    destruct (dl =? 0).
    + injection Hrun as <-. reflexivity.
    + apply (RunFacts.walk_invariant mem (fun u => backend u = backend v))
        with (fuel := fuel) (dl := dl) (w := reset_stack v).
      * intros d u Hu. rewrite WalkerFacts.loop_body_backend. exact Hu.
      * reflexivity.
      * exact Hrun.
  - intros k mem dl v dl_k w_k Hit.
    apply (RunFacts.iter_invariant mem (fun u => backend u = backend v))
      with (n := k) (dl := dl) (w := reset_stack v) (dl_n := dl_k).
    + intros d u Hu. rewrite WalkerFacts.loop_body_backend. exact Hu.
    + reflexivity.
    + exact Hit.
  - intros mem dl w a b e Hdl Hat Ha Hb He.
    assert (Hin : forallb inert [a; b] = true).
    { unfold inert. cbn. rewrite Ha, Hb. reflexivity. }
    destruct (StreamFacts.walk_inert_then_end [a; b] e mem dl (reset_stack w)
                Hat Hin He eq_refl) as (Hret & Hnot & Hvis).
    unfold nsp_process_display_list.
    destruct (Z.eqb_spec dl 0); [contradiction|].
    repeat split.
    + exact Hret.
    + intros fuel Hfuel. apply Hnot. cbn. lia.
    + intros fuel Hfuel. exact (RunFacts.walk_more_fuel _ _ _ _ _ _ Hret Hfuel).
    + exact Hvis.
Qed.

Lemma render_stream_visited_not_submitted_witness :
  nsp_process_display_list 3 Samples.render_stream 0x1000 boot
  = Some (reset_stack boot) /\
  visited 3 Samples.render_stream 0x1000 (reset_stack boot)
  = [Samples.render_a; Samples.render_b; gSPEndDisplayList] /\
  loop_body Samples.call_stream 0x2000 Samples.full_depth
  = Next (ptr_next 0x2000) Samples.full_depth.
Proof.
  destruct render_stream_visited_not_submitted as (Hstep & _ & _ & Hstream).
  destruct (Hstream Samples.render_stream
              0x1000 boot Samples.render_a Samples.render_b
              gSPEndDisplayList ltac:(lia) eq_refl eq_refl eq_refl eq_refl)
    as (Hret & _ & _ & Hvis & _).
  split; [exact Hret|]. split; [exact Hvis|].
  exact (Hstep Samples.call_stream 0x2000 Samples.full_depth eq_refl).
Defined.

(** C2, counterexample.  [RENDER(a), RENDER(b), END] is processed to its
    END and the renderer has received nothing, not [a; b]. *)
Lemma render_stream_submits_nothing :
  exists w',
    nsp_process_display_list 3 Samples.render_stream 0x1000 boot = Some w' /\
    backend w' = [] /\
    backend w' <> [Samples.render_a; Samples.render_b].
Proof.
  exists (reset_stack boot). repeat split. discriminate.
Qed.

(** C3 (the code at the failing input).  A command built by [gSPSegment]
    carries index 0, not [G_MW_SEGMENT], whatever the segment id: the walker
    executes it as a plain advance and the table keeps all its entries.
    Processing [gSPSegment(1, 0x1000), END] from the zeroed table leaves
    entry 1 at zero, and (segment 1, offset 0x20) still resolves to 0x20.
    A command that does carry [G_MW_SEGMENT] and offset 4 sets entry 1. *)
Theorem gSPSegment_leaves_table_unchanged :
  (forall mem dl w s b,
     loop_body (store dl (gSPSegment s b) mem) dl w = Next (ptr_next dl) w) /\
  (forall s b, segment_set_target (gSPSegment s b) = None) /\
  (exists w',
     nsp_process_display_list 2 Samples.gSPSegment_stream 0x1000 boot = Some w' /\
     array_get (nsp_segments w') 1 = 0 /\
     nsp_segmented_to_virtual (nsp_segments w') 0x01000020 = 0x20) /\
  (exists w',
     nsp_process_display_list 2 Samples.segment_stream 0x1000 boot = Some w' /\
     array_get (nsp_segments w') 1 = 0x1000 /\
     nsp_segmented_to_virtual (nsp_segments w') 0x01000020 = 0x1020).
Proof.
  split; [|split; [|split]].
  - intros mem dl w s b. unfold loop_body, store. rewrite Z.eqb_refl.
    reflexivity.
  - intros s b. reflexivity.
  - exists (reset_stack boot). repeat split.
  - eexists. split; [reflexivity|]. split; reflexivity.
Qed.

(** C4 (as the code has it).  A CALL whose target word is not [NULL], met
    with fewer than 16 return addresses pending, stores the address of the
    command after the CALL in the next free stack slot and moves the cursor
    to the target word as it stands (the walker does not pass it through the
    segment table).  An END met with that slot on top resumes at the command
    after the CALL and frees the slot.  For a parent [CALL(child), y, ...]
    and a child [x, END] the commands are visited in the order CALL, [x],
    END, [y]. *)
Theorem call_pushes_return_address (mem : memory) (dl : Z) (w : world) :
  stack_ok w ->
  dl_stack_top w < DL_STACK_SIZE ->
  opcode (mem dl) = G_DL ->
  is_branch (mem dl) = false ->
  w1 (mem dl) <> 0 ->
  ptr_next dl <> 0 ->
  let ret := ptr_next dl in
  let w' := dl_push ret w in
  loop_body mem dl w = Next (w1 (mem dl)) w' /\
  (dl_stack_top w' = dl_stack_top w + 1 /\
   array_get (dl_stack w') (dl_stack_top w) = ret /\
   (forall j, j <> Z.to_nat (dl_stack_top w) ->
      dl_stack w' !! j = dl_stack w !! j) /\
   nsp_segments w' = nsp_segments w /\ backend w' = backend w) /\
  (forall e v,
     opcode (mem e) = G_ENDDL ->
     dl_stack_top v = dl_stack_top w + 1 ->
     array_get (dl_stack v) (dl_stack_top w) = ret ->
     loop_body mem e v = Next ret (snd (dl_pop v)) /\
     dl_stack_top (snd (dl_pop v)) = dl_stack_top w) /\
  (forall x e y,
     stream_at mem (w1 (mem dl)) [x; e] = true ->
     inert x = true -> opcode e = G_ENDDL ->
     mem ret = y -> inert y = true ->
     visited 4 mem dl w = [mem dl; x; e; y] /\
     exists v, iter 4 mem dl w = Some (ptr_next ret, v) /\
               dl_stack_top v = dl_stack_top w).
Proof.
  intros [Hlen Htop] Hroom Hop Hbr Htarget Hret ret w'.
  assert (Hstep : loop_body mem dl w = Next (w1 (mem dl)) w').
  { rewrite WalkerFacts.loop_body_dl by assumption. rewrite Hbr.
    destruct (Z.eqb_spec (w1 (mem dl)) 0); [contradiction|reflexivity]. }
  assert (Hw' : w' =
    {| nsp_segments := nsp_segments w;
       dl_stack := <[Z.to_nat (dl_stack_top w) := ret]> (dl_stack w);
       dl_stack_top := dl_stack_top w + 1;
       backend := backend w |}).
  { apply WalkerFacts.dl_push_room. assumption. }
  assert (Hslot : array_get (dl_stack w') (dl_stack_top w) = ret).
  { rewrite Hw'. unfold array_get. cbn.
    rewrite list_lookup_insert_eq; [reflexivity|].
    rewrite Hlen. unfold DL_STACK_SIZE in *. lia. }
  assert (Hend : forall e v,
     opcode (mem e) = G_ENDDL ->
     dl_stack_top v = dl_stack_top w + 1 ->
     array_get (dl_stack v) (dl_stack_top w) = ret ->
     loop_body mem e v = Next ret (snd (dl_pop v)) /\
     dl_stack_top (snd (dl_pop v)) = dl_stack_top w).
  { intros e v He Hv Hslotv.
    rewrite WalkerFacts.loop_body_end by assumption.
    unfold dl_pop. rewrite Hv.
    destruct (Z.gtb_spec (dl_stack_top w + 1) 0); [|lia]. cbn.
    replace (dl_stack_top w + 1 - 1) with (dl_stack_top w) by lia.
    rewrite Hslotv. destruct (Z.eqb_spec ret 0); [contradiction|].
    split; reflexivity. }
  split; [exact Hstep|]. split; [|split; [exact Hend|]].
  - rewrite Hw'. cbn. repeat split.
    + exact (eq_trans (f_equal (fun v => array_get (dl_stack v) _)
                         (eq_sym Hw')) Hslot).
    + intros j Hj. apply list_lookup_insert_ne. congruence.
  - intros x e y Hat Hx He Hy Hiy.
    cbn in Hat. rewrite andb_true_r in Hat.
    apply andb_true_iff in Hat as [Hmx Hme].
    apply Gfx_eqb_eq in Hmx. apply Gfx_eqb_eq in Hme.
    assert (Hs2 : loop_body mem (w1 (mem dl)) w'
                  = Next (ptr_next (w1 (mem dl))) w').
    { apply WalkerFacts.loop_body_inert. rewrite Hmx. exact Hx. }
    assert (Htop' : dl_stack_top w' = dl_stack_top w + 1).
    { rewrite Hw'. reflexivity. }
    destruct (Hend (ptr_next (w1 (mem dl))) w'
                ltac:(rewrite Hme; exact He) Htop' Hslot) as [Hs3 Hdepth].
    assert (Hs4 : loop_body mem ret (snd (dl_pop w'))
                  = Next (ptr_next ret) (snd (dl_pop w'))).
    { apply WalkerFacts.loop_body_inert. rewrite Hy. exact Hiy. }
    split.
    + unfold visited. cbn. rewrite Hstep, Hs2, Hs3, Hs4. cbn [map].
      rewrite Hmx, Hme, Hy. reflexivity.
    + exists (snd (dl_pop w')). cbn. rewrite Hstep, Hs2, Hs3, Hs4.
      split; [reflexivity|exact Hdepth].
Qed.

Lemma call_pushes_return_address_witness :
  visited 4 Samples.call_stream 0x1000 boot
  = [gSPDisplayList 0x2000; Samples.render_a; gSPEndDisplayList;
     Samples.render_b].
Proof.
  assert (Hok : stack_ok boot) by (split; [reflexivity|cbv; split; discriminate]).
  pose proof (call_pushes_return_address Samples.call_stream 0x1000 boot
                Hok eq_refl eq_refl eq_refl ltac:(discriminate)
                ltac:(discriminate)) as (_ & _ & _ & Horder).
  destruct (Horder Samples.render_a gSPEndDisplayList Samples.render_b
              eq_refl eq_refl eq_refl eq_refl eq_refl) as [Hvis _].
  exact Hvis.
Defined.

(** C4, counterexample.  With 16 return addresses pending a CALL pushes
    nothing, and the child's END resumes at the stale top entry 0x3000, not
    after the CALL at 0x1008.  A CALL with a [NULL] target word pushes
    nothing and falls through.  With segment 1 set to 0x1000 a CALL to
    (segment 1, offset 0x20) moves the cursor to 0x01000020, while that
    address resolves to 0x1020. *)
Lemma call_not_always_pushed_nor_resolved :
  (loop_body Samples.deep_call_stream 0x1000 Samples.full_depth
   = Next 0x2000 Samples.full_depth /\
   cursors 3 Samples.deep_call_stream 0x1000 Samples.full_depth
   = [0x1000; 0x2000; 0x3000]) /\
  loop_body Samples.null_call_stream 0x1000 boot = Next 0x1008 boot /\
  (loop_body Samples.segmented_call_stream 0x1000 (nsp_set_segment 1 0x1000 boot)
   = Next 0x01000020 (dl_push 0x1008 (nsp_set_segment 1 0x1000 boot)) /\
   nsp_segmented_to_virtual
     (nsp_segments (nsp_set_segment 1 0x1000 boot)) 0x01000020 = 0x1020 /\
   0x01000020 <> 0x1020).
Proof.
  repeat split. discriminate.
Qed.

(** C5 (the code at the failing input).  [gSPBranchList] expands to
    [gSPDisplayList]: the command has bits 16..23 of [w0] clear, so the
    walker takes it for a call.  It pushes the address of the following
    command, and after the child's END the walk resumes in the origin
    stream (0x1008, 0x1010).  A command word with the branch bits set does
    not. *)
Theorem gSPBranchList_executed_as_call :
  (forall child,
     opcode (gSPBranchList child) = G_DL /\
     is_branch (gSPBranchList child) = false) /\
  (forall mem dl w child,
     loop_body (store dl (gSPBranchList child) mem) dl w =
     if u32 child =? 0 then Next (ptr_next dl) w
     else Next (u32 child) (dl_push (ptr_next dl) w)) /\
  loop_body Samples.branchlist_stream 0x1000 (reset_stack boot)
  = Next 0x2000 (dl_push 0x1008 (reset_stack boot)) /\
  dl_stack_top (dl_push 0x1008 (reset_stack boot)) = 1 /\
  cursors 6 Samples.branchlist_stream 0x1000 (reset_stack boot)
  = [0x1000; 0x2000; 0x2008; 0x1008; 0x1010] /\
  cursors 6 Samples.branch_stream 0x1000 (reset_stack boot)
  = [0x1000; 0x2000; 0x2008].
Proof.
  split; [|split; [|repeat split]].
  - intros child. split; reflexivity.
  - intros mem dl w child. unfold loop_body, store. rewrite Z.eqb_refl.
    reflexivity.
Qed.

(** C6 (as the code has it).  A BRANCH whose target word is not [NULL]
    leaves the statics as they are, whatever the stack holds and whatever
    the child contains, and moves the cursor to the target.  From there the
    call returns at the first END the walk reaches with the stack empty and
    not before, and it returns nowhere else than at an END for which
    [dl_pop] yields no parent; this holds for every child, also one with
    calls of its own.  For a straight-line child [cmds, END] and an empty
    stack the call returns after [length cmds + 2] iterations, not before,
    having visited the BRANCH, the child's commands and its END and nothing
    else. *)
Theorem branch_transfers_without_push :
  (forall mem dl v,
     opcode (mem dl) = G_DL -> is_branch (mem dl) = true ->
     w1 (mem dl) <> 0 ->
     loop_body mem dl v = Next (w1 (mem dl)) v) /\
  (forall mem dl w k dl_k w_k,
     opcode (mem dl) = G_DL -> is_branch (mem dl) = true ->
     w1 (mem dl) <> 0 ->
     iter k mem (w1 (mem dl)) w = Some (dl_k, w_k) ->
     dl_stack_top w_k = 0 -> opcode (mem dl_k) = G_ENDDL ->
     walk (k + 2) mem dl w = Some w_k /\
     (forall n, (n <= k + 1)%nat -> walk n mem dl w = None)) /\
  (forall mem dl w fuel w',
     opcode (mem dl) = G_DL -> is_branch (mem dl) = true ->
     w1 (mem dl) <> 0 ->
     walk fuel mem dl w = Some w' ->
     exists k dl_k w_k,
       (k + 2 <= fuel)%nat /\
       iter k mem (w1 (mem dl)) w = Some (dl_k, w_k) /\
       opcode (mem dl_k) = G_ENDDL /\ fst (dl_pop w_k) = 0 /\
       w' = snd (dl_pop w_k)) /\
  (forall mem dl w cmds e,
     opcode (mem dl) = G_DL -> is_branch (mem dl) = true ->
     w1 (mem dl) <> 0 ->
     dl_stack_top w = 0 ->
     stream_at mem (w1 (mem dl)) (cmds ++ [e]) = true ->
     forallb inert cmds = true ->
     opcode e = G_ENDDL ->
     walk (length cmds + 2) mem dl w = Some w /\
     (forall n, (n <= length cmds + 1)%nat -> walk n mem dl w = None) /\
     visited (length cmds + 2) mem dl w = mem dl :: cmds ++ [e]).
Proof.
  assert (Hbranch : forall mem dl v,
     opcode (mem dl) = G_DL -> is_branch (mem dl) = true ->
     w1 (mem dl) <> 0 ->
     loop_body mem dl v = Next (w1 (mem dl)) v).
  { intros mem dl v Hop Hbr Htarget.
    rewrite WalkerFacts.loop_body_dl by assumption. rewrite Hbr.
    destruct (Z.eqb_spec (w1 (mem dl)) 0); [contradiction|reflexivity]. }
  split; [exact Hbranch|]. split; [|split].
  - intros mem dl w k dl_k w_k Hop Hbr Htarget Hit Hempty Hend.
    pose proof (Hbranch mem dl w Hop Hbr Htarget) as Hstep.
    assert (Hlast : loop_body mem dl_k w_k = Return w_k).
    { apply WalkerFacts.loop_body_return.
      rewrite WalkerFacts.dl_pop_empty by assumption. auto. }
    split.
    + replace (k + 2)%nat with (S (k + 1)) by lia.
      cbn [walk]. rewrite Hstep.
      rewrite (RunFacts.walk_after_iter _ _ _ _ _ _ _ Hit). cbn [walk].
      rewrite Hlast. reflexivity.
    + intros n Hn. destruct n as [|n]; [reflexivity|].
      cbn [walk]. rewrite Hstep.
      apply (RunFacts.walk_short k n mem _ w dl_k w_k Hit). lia.
  - intros mem dl w fuel w' Hop Hbr Htarget Hret.
    pose proof (Hbranch mem dl w Hop Hbr Htarget) as Hstep.
    destruct fuel as [|fuel]; [discriminate|].
    cbn [walk] in Hret. rewrite Hstep in Hret.
    apply RunFacts.walk_returns_iff in Hret
      as (k & dl_k & w_k & Hk & Hit & Hlast).
    apply WalkerFacts.loop_body_return in Hlast as (Hend & Hnull & Hw').
    exists k, dl_k, w_k. repeat split; try assumption. lia.
  - intros mem dl w cmds e Hop Hbr Htarget Htop Hat Hin He.
    pose proof (Hbranch mem dl w Hop Hbr Htarget) as Hstep.
    destruct (StreamFacts.walk_inert_then_end cmds e mem (w1 (mem dl)) w
                Hat Hin He Htop) as (Hret & Hnot & Hvis).
    repeat split.
    + replace (length cmds + 2)%nat with (S (S (length cmds))) by lia.
      cbn [walk]. rewrite Hstep. exact Hret.
    + intros n Hn. destruct n as [|n]; [reflexivity|].
      cbn [walk]. rewrite Hstep. apply Hnot. lia.
    + replace (length cmds + 2)%nat with (S (S (length cmds))) by lia.
      unfold visited in *. cbn [cursors]. rewrite Hstep. cbn [map].
      f_equal. exact Hvis.
Qed.

Lemma branch_transfers_without_push_witness :
  walk 3 Samples.branch_stream 0x1000 boot = Some boot /\
  visited 3 Samples.branch_stream 0x1000 boot
  = [Samples.branch_command 0x2000; Samples.render_a; gSPEndDisplayList] /\
  loop_body Samples.branch_into_call_stream 0x1000 Samples.full_depth
  = Next 0x2000 Samples.full_depth /\
  walk 5 Samples.branch_into_call_stream 0x1000 boot
  = Some (snd (dl_pop (dl_push 0x2008 boot))) /\
  walk 4 Samples.branch_into_call_stream 0x1000 boot = None.
Proof.
  destruct branch_transfers_without_push as (Hstep & Hfirst & _ & Hline).
  destruct (Hline Samples.branch_stream 0x1000 boot
              [Samples.render_a] gSPEndDisplayList
              eq_refl eq_refl ltac:(discriminate) eq_refl eq_refl eq_refl
              eq_refl) as (Hret & _ & Hvis).
  destruct (Hfirst Samples.branch_into_call_stream 0x1000 boot 3%nat
              0x2008 (snd (dl_pop (dl_push 0x2008 boot)))
              eq_refl eq_refl ltac:(discriminate) eq_refl eq_refl eq_refl)
    as (Hret2 & Hnot2).
  split; [exact Hret|]. split; [exact Hvis|]. split.
  - exact (Hstep Samples.branch_into_call_stream 0x1000 Samples.full_depth
             eq_refl eq_refl ltac:(discriminate)).
  - split; [exact Hret2|]. apply Hnot2. cbv. lia.
Defined.

(** C6, counterexample.  A BRANCH with a [NULL] target word is skipped: the
    walk goes on in the branching stream, at 0x1008 and 0x1010, and visits
    the command that follows the BRANCH. *)
Lemma null_branch_resumes_branching_stream :
  opcode (Samples.null_branch_stream 0x1000) = G_DL /\
  is_branch (Samples.null_branch_stream 0x1000) = true /\
  cursors 3 Samples.null_branch_stream 0x1000 (reset_stack boot)
  = [0x1000; 0x1008; 0x1010] /\
  visited 3 Samples.null_branch_stream 0x1000 (reset_stack boot)
  = [Samples.branch_command 0; Samples.render_b; gSPEndDisplayList] /\
  nsp_process_display_list 3 Samples.null_branch_stream 0x1000 boot
  = Some (reset_stack boot).
Proof. repeat split. Qed.

(** C8.  A call of [nsp_process_display_list] on a non-null list is the
    walk started with [dl_stack_top = 0]: the depth the caller's statics
    carry has no effect, the call returns exactly when that walk returns
    and runs exactly as long as it runs.  On entry to every iteration, and
    at the return, [dl_stack_top] lies in [0, 16] and [dl_stack] still has
    its 16 slots.  [dl_push] at depth 16 changes nothing; below it the
    write goes to slot [dl_stack_top], inside the array.  A call on [NULL]
    returns at once with the statics untouched.  A returning call leaves
    the stack empty, so in any series of top-level calls begun with an
    empty stack every call, on [NULL] or not, starts with an empty stack
    (no pushing CALL being placed where [dl + 1] wraps to [NULL]). *)
Theorem stack_depth_bounded (mem : memory) (dl : Z) (w : world) :
  length (dl_stack w) = 16%nat ->
  dl_stack_top (reset_stack w) = 0 /\
  iter 0 mem dl (reset_stack w) = Some (dl, reset_stack w) /\
  (dl <> 0 -> forall fuel w',
     nsp_process_display_list fuel mem dl w = Some w' <->
     exists k dl_k w_k,
       (k < fuel)%nat /\
       iter k mem dl (reset_stack w) = Some (dl_k, w_k) /\
       loop_body mem dl_k w_k = Return w') /\
  (dl <> 0 -> forall fuel,
     nsp_process_display_list fuel mem dl w = None <->
     exists dl_f w_f, iter fuel mem dl (reset_stack w) = Some (dl_f, w_f)) /\
  (dl <> 0 -> forall fuel t,
     nsp_process_display_list fuel mem dl
       {| nsp_segments := nsp_segments w; dl_stack := dl_stack w;
          dl_stack_top := t; backend := backend w |}
     = nsp_process_display_list fuel mem dl w) /\
  (forall k dl_k w_k,
     iter k mem dl (reset_stack w) = Some (dl_k, w_k) ->
     0 <= dl_stack_top w_k <= 16 /\ length (dl_stack w_k) = 16%nat) /\
  (dl <> 0 -> forall fuel w',
     nsp_process_display_list fuel mem dl w = Some w' ->
     0 <= dl_stack_top w' <= 16 /\ length (dl_stack w') = 16%nat) /\
  (forall x v, stack_ok v -> dl_stack_top v = 16 -> dl_push x v = v) /\
  (forall x v, stack_ok v -> dl_stack_top v < 16 ->
     (Z.to_nat (dl_stack_top v) < length (dl_stack v))%nat /\
     dl_stack (dl_push x v) = <[Z.to_nat (dl_stack_top v) := x]> (dl_stack v) /\
     dl_stack_top (dl_push x v) = dl_stack_top v + 1) /\
  (forall x v, stack_ok v -> stack_ok (dl_push x v)) /\
  (forall fuel v, nsp_process_display_list fuel mem 0 v = Some v) /\
  (Invocations.no_pointer_wrap mem -> forall fuel w',
     nsp_process_display_list fuel mem dl w = Some w' ->
     (dl = 0 -> w' = w) /\ (dl <> 0 -> dl_stack_top w' = 0)) /\
  (forall calls,
     Forall (fun c => Invocations.no_pointer_wrap (snd (fst c))) calls ->
     dl_stack_top w = 0 ->
     Forall (fun s => dl_stack_top s = 0)
       (Invocations.invocation_starts calls w)).
Proof.
  intros Hlen.
  assert (Hinit : stack_ok (reset_stack w)).
  { split; [exact Hlen|]. cbv. split; discriminate. }
  split; [reflexivity|]. split; [reflexivity|].
  split; [|split; [|split; [|split; [|split; [|split; [|split; [|split;
    [|split; [|split]]]]]]]]].
  - intros Hdl fuel w'. unfold nsp_process_display_list.
    destruct (Z.eqb_spec dl 0); [contradiction|].
    apply RunFacts.walk_returns_iff.
  - intros Hdl fuel. unfold nsp_process_display_list.
    destruct (Z.eqb_spec dl 0); [contradiction|].
    apply StackFacts.walk_running_iff.
  - intros Hdl fuel t. unfold nsp_process_display_list.
    destruct (Z.eqb_spec dl 0); [contradiction|reflexivity].
  - intros k dl_k w_k Hit.
    destruct (RunFacts.iter_invariant mem stack_ok
                (WalkerFacts.loop_body_stack_ok mem) k dl (reset_stack w)
                dl_k w_k Hinit Hit) as [Hl Ht].
    split; [exact Ht|exact Hl].
  - intros Hdl fuel w' Hret. unfold nsp_process_display_list in Hret.
    destruct (Z.eqb_spec dl 0); [contradiction|].
    destruct (RunFacts.walk_invariant mem stack_ok
                (WalkerFacts.loop_body_stack_ok mem) fuel dl (reset_stack w)
                w' Hinit Hret) as [Hl Ht].
    split; [exact Ht|exact Hl].
  - intros x v _ Hfull. apply WalkerFacts.dl_push_full.
    unfold DL_STACK_SIZE. lia.
  - intros x v [Hl Ht] Hroom.
    rewrite WalkerFacts.dl_push_room by exact Hroom. cbn.
    repeat split. rewrite Hl. unfold DL_STACK_SIZE in *. lia.
  - intros x v. apply WalkerFacts.dl_push_stack_ok.
  - intros fuel v. reflexivity.
  - intros Hwrap fuel w' Hret.
    destruct (StackFacts.process_leaves_stack_empty fuel mem dl w w'
                Hwrap Hlen Hret) as (Hnull & Hlist & _).
    split; assumption.
  - intros calls Hwrap Hempty.
    apply StackFacts.invocation_starts_empty; assumption.
Qed.

Lemma stack_depth_bounded_witness :
  dl_stack_top (reset_stack Samples.full_depth) = 0 /\
  iter 16 Samples.self_call_stream 0x1000 (reset_stack Samples.full_depth)
  = Some (0x1000,
          {| nsp_segments := replicate 16 0;
             dl_stack := replicate 16 0x1008;
             dl_stack_top := 16; backend := [] |}) /\
  (0 <= dl_stack_top
          {| nsp_segments := replicate 16 0;
             dl_stack := replicate 16 0x1008;
             dl_stack_top := 16; backend := [] |} <= 16 /\
   length (dl_stack
             {| nsp_segments := replicate 16 0;
                dl_stack := replicate 16 0x1008;
                dl_stack_top := 16; backend := [] |}) = 16%nat) /\
  dl_push 0x1008
    {| nsp_segments := replicate 16 0; dl_stack := replicate 16 0x1008;
       dl_stack_top := 16; backend := [] |}
  = {| nsp_segments := replicate 16 0; dl_stack := replicate 16 0x1008;
       dl_stack_top := 16; backend := [] |} /\
  iter 17 Samples.self_call_stream 0x1000 (reset_stack Samples.full_depth)
  = Some (0x1000,
          {| nsp_segments := replicate 16 0;
             dl_stack := replicate 16 0x1008;
             dl_stack_top := 16; backend := [] |}) /\
  (nsp_process_display_list 5 Samples.call_stream 0x1000 Samples.full_depth
   = Some (snd (dl_pop (dl_push 0x1008 (reset_stack Samples.full_depth))))
   <-> exists k dl_k w_k,
         (k < 5)%nat /\
         iter k Samples.call_stream 0x1000 (reset_stack Samples.full_depth)
         = Some (dl_k, w_k) /\
         loop_body Samples.call_stream dl_k w_k
         = Return (snd (dl_pop (dl_push 0x1008
                                  (reset_stack Samples.full_depth))))) /\
  Forall (fun s => dl_stack_top s = 0)
    (Invocations.invocation_starts
       [(5%nat, Samples.call_stream, 0x1000); (0%nat, Samples.call_stream, 0);
        (5%nat, Samples.call_stream, 0x1000)] boot).
Proof.
  pose proof (stack_depth_bounded Samples.self_call_stream 0x1000
                Samples.full_depth eq_refl)
    as (Hempty & _ & _ & _ & _ & Hbound & _ & Hfull & _).
  pose proof (stack_depth_bounded Samples.call_stream 0x1000
                Samples.full_depth eq_refl)
    as (_ & _ & Hiff & _).
  pose proof (stack_depth_bounded Samples.call_stream 0x1000 boot eq_refl)
    as (_ & _ & _ & _ & _ & _ & _ & _ & _ & _ & _ & _ & Hseries).
  assert (Hit : iter 16 Samples.self_call_stream 0x1000
                  (reset_stack Samples.full_depth)
                = Some (0x1000,
                        {| nsp_segments := replicate 16 0;
                           dl_stack := replicate 16 0x1008;
                           dl_stack_top := 16; backend := [] |}))
    by (vm_compute; reflexivity).
  pose proof (Hbound 16%nat 0x1000 _ Hit) as Hb.
  split; [exact Hempty|]. split; [exact Hit|]. split; [exact Hb|].
  split.
  - apply Hfull; [|reflexivity]. destruct Hb as [Ht Hl].
    split; [exact Hl|exact Ht].
  - split; [vm_compute; reflexivity|]. split.
    + exact (Hiff ltac:(discriminate) 5%nat _).
    + apply Hseries; [|reflexivity].
      repeat constructor; exact StackFacts.call_stream_no_pointer_wrap.
Defined.

(** C9.  [nsp_process_display_list] does not clear the segment table: the
    walk starts from the table as the caller left it, the table keeps its
    extent, and every entry that no segment command executed during the call
    names has at the return the value it had on entry.  The same holds
    across a second call made on the state the first one returned. *)
Theorem segment_table_persists
    (fuel : nat) (mem : memory) (dl : Z) (w w' : world) (i : nat) :
  nsp_process_display_list fuel mem dl w = Some w' ->
  overwritten fuel mem dl (reset_stack w) i = false ->
  nsp_segments (reset_stack w) = nsp_segments w /\
  nsp_segments w' !! i = nsp_segments w !! i /\
  array_get (nsp_segments w') (Z.of_nat i)
  = array_get (nsp_segments w) (Z.of_nat i) /\
  length (nsp_segments w') = length (nsp_segments w) /\
  (forall fuel2 mem2 dl2 w2,
     nsp_process_display_list fuel2 mem2 dl2 w' = Some w2 ->
     overwritten fuel2 mem2 dl2 (reset_stack w') i = false ->
     nsp_segments w2 !! i = nsp_segments w !! i).
Proof.
  assert (Hone : forall f m d v v',
            nsp_process_display_list f m d v = Some v' ->
            overwritten f m d (reset_stack v) i = false ->
            nsp_segments v' !! i = nsp_segments v !! i).
  { intros f m d v v' Hret Hover. unfold nsp_process_display_list in Hret.
    destruct (d =? 0).
    - injection Hret as <-. reflexivity.
    - exact (RunFacts.walk_segments f m d (reset_stack v) v' i Hret Hover). }
  intros Hret Hover. split; [reflexivity|].
  pose proof (Hone _ _ _ _ _ Hret Hover) as Hsame.
  split; [exact Hsame|]. split; [|split].
  - unfold array_get. rewrite Nat2Z.id, Hsame. reflexivity.
  - unfold nsp_process_display_list in Hret. destruct (dl =? 0).
    + injection Hret as <-. reflexivity.
    + apply (RunFacts.walk_invariant mem
               (fun v => length (nsp_segments v) = length (nsp_segments w)))
        with (fuel := fuel) (dl := dl) (w := reset_stack w).
      * intros d v Hv. rewrite WalkerFacts.loop_body_segments_length. exact Hv.
      * reflexivity.
      * exact Hret.
  - intros fuel2 mem2 dl2 w2 Hret2 Hover2.
    rewrite (Hone _ _ _ _ _ Hret2 Hover2). exact Hsame.
Qed.

Lemma segment_table_persists_witness :
  nsp_process_display_list 2 Samples.segment_stream 0x1000
    (nsp_set_segment 2 0x8000 boot)
  = Some (nsp_set_segment 1 0x1000 (nsp_set_segment 2 0x8000 boot)) /\
  nsp_segments (nsp_set_segment 1 0x1000 (nsp_set_segment 2 0x8000 boot))
    !! 2%nat
  = nsp_segments (nsp_set_segment 2 0x8000 boot) !! 2%nat.
Proof.
  split; [reflexivity|].
  apply (segment_table_persists 2 Samples.segment_stream 0x1000
           (nsp_set_segment 2 0x8000 boot)
           (nsp_set_segment 1 0x1000 (nsp_set_segment 2 0x8000 boot))
           2 eq_refl eq_refl).
Defined.


(** * Further properties of the code *)

(** ** Bit fields *)

Module BitFacts.

Lemma shiftr_small (x n : Z) : 0 <= n -> 0 <= x < 2 ^ n -> Z.shiftr x n = 0.
Proof.
  intros Hn Hx. rewrite Z.shiftr_div_pow2 by exact Hn.
  apply Z.div_small. exact Hx.
Qed.

Lemma lor_below (a b n : Z) :
  0 <= n -> 0 <= a < 2 ^ n -> 0 <= b < 2 ^ n -> 0 <= Z.lor a b < 2 ^ n.
Proof.
  intros Hn Ha Hb.
  assert (Hnn : 0 <= Z.lor a b) by (apply Z.lor_nonneg; lia).
  split; [exact Hnn|].
  assert (Hz : Z.shiftr (Z.lor a b) n = 0).
  { rewrite Z.shiftr_lor, !shiftr_small by assumption. reflexivity. }
  rewrite Z.shiftr_div_pow2 in Hz by exact Hn.
  apply Z.div_small_iff in Hz; lia.
Qed.

Lemma shiftl_below (x k n : Z) :
  0 <= k -> 0 <= n -> 0 <= x < 2 ^ n -> 0 <= Z.shiftl x k < 2 ^ (n + k).
Proof.
  intros Hk Hn Hx. rewrite Z.shiftl_mul_pow2 by exact Hk.
  rewrite Z.pow_add_r by assumption.
  assert (0 < 2 ^ k) by (apply Z.pow_pos_nonneg; lia). nia.
Qed.

Lemma land_8_bits_top (a : Z) : Z.land a 0xFF = a mod 256.
Proof. change 0xFF with (Z.ones 8). rewrite Z.land_ones by lia. reflexivity. Qed.

(** The top byte of a word with the opcode [c] in bits 24..31 and anything
    below bit 24 underneath. *)
Lemma top_byte (c low : Z) :
  0 <= c < 256 -> 0 <= low < 2 ^ 24 ->
  Z.land (Z.shiftr (u32 (Z.lor (Z.shiftl c 24) low)) 24) 0xFF = c.
Proof.
  intros Hc Hlow.
  assert (Hhi : 0 <= Z.shiftl c 24 < 2 ^ 32).
  { exact (shiftl_below c 24 8 ltac:(lia) ltac:(lia) Hc). }
  assert (Hall : 0 <= Z.lor (Z.shiftl c 24) low < 2 ^ 32).
  { apply lor_below; lia. }
  unfold u32. rewrite Z.mod_small by exact Hall.
  rewrite Z.shiftr_lor, Z.shiftr_shiftl_l by lia.
  rewrite (shiftr_small low 24) by lia.
  change (24 - 24) with 0. rewrite Z.shiftl_0_r, Z.lor_0_r.
  rewrite land_8_bits_top. apply Z.mod_small. lia.
Qed.

End BitFacts.

(** ** Segment table: set and resolve together *)

Module SegmentFacts.

(** The encoded address (segment [s], offset [off]) decodes to its parts. *)
Lemma encoded_address_fields (s off : Z) :
  0 <= s < 16 -> 0 <= off < 2 ^ 24 ->
  Z.land (Z.shiftr (Z.lor (Z.shiftl s 24) off) 24) 0xF = s /\
  Z.land (Z.lor (Z.shiftl s 24) off) 0x00FFFFFF = off.
Proof.
  intros Hs Hoff. split.
  - rewrite Z.shiftr_lor, Z.shiftr_shiftl_l by lia.
    rewrite (BitFacts.shiftr_small off 24) by lia.
    change (24 - 24) with 0. rewrite Z.shiftl_0_r, Z.lor_0_r.
    rewrite land_4_bits. apply Z.mod_small. lia.
  - rewrite land_24_bits. change (2 ^ 24) with (2 ^ 24) in *.
    rewrite <- Z.land_ones by lia. rewrite Z.land_lor_distr_l.
    rewrite !Z.land_ones by lia. rewrite Z.shiftl_mul_pow2 by lia.
    rewrite Z.mod_mul by lia. rewrite Z.lor_0_l. apply Z.mod_small. lia.
Qed.

Lemma resolve_fields (segs : list Z) (s off : Z) :
  0 <= s < 16 -> 0 <= off < 2 ^ 24 ->
  StackWalker.nsp_segmented_to_virtual segs (Z.lor (Z.shiftl s 24) off)
  = if array_get segs s =? 0 then off
    else (array_get segs s + off) mod 2 ^ 32.
Proof.
  intros Hs Hoff. unfold StackWalker.nsp_segmented_to_virtual, uptr.
  destruct (encoded_address_fields s off Hs Hoff) as [-> ->]. reflexivity.
Qed.

End SegmentFacts.

(** X1.  Set, then resolve: after [nsp_set_segment(seg, base)] the encoded
    address (segment [seg & 0xF], offset [off]) resolves to [base + off] in
    32-bit arithmetic, and to the bare offset when [base] is 0; an address
    in any other segment resolves as before the set. *)
Theorem set_then_resolve (segs : list Z) (seg base off : Z) :
  length segs = 16%nat ->
  0 <= off < 2 ^ 24 ->
  StackWalker.nsp_segmented_to_virtual
    (StackWalker.set_segment segs seg base)
    (Z.lor (Z.shiftl (Z.land seg 0xF) 24) off)
  = (if base =? 0 then off else (base + off) mod 2 ^ 32) /\
  (forall s, 0 <= s < 16 -> s <> Z.land seg 0xF ->
     StackWalker.nsp_segmented_to_virtual
       (StackWalker.set_segment segs seg base) (Z.lor (Z.shiftl s 24) off)
     = StackWalker.nsp_segmented_to_virtual segs (Z.lor (Z.shiftl s 24) off)).
Proof.
  intros Hlen Hoff. pose proof (segment_id_range seg) as Hid. split.
  - rewrite SegmentFacts.resolve_fields by assumption.
    rewrite set_segment_same by exact Hlen. reflexivity.
  - intros s Hs Hne. rewrite !SegmentFacts.resolve_fields by assumption.
    unfold array_get. rewrite set_segment_other by lia. reflexivity.
Qed.

Lemma set_then_resolve_witness :
  StackWalker.nsp_segmented_to_virtual
    (StackWalker.set_segment (nsp_segments boot) 0x13 0x80100000)
    (Z.lor (Z.shiftl (Z.land 0x13 0xF) 24) 0x40)
  = (if 0x80100000 =? 0 then 0x40 else (0x80100000 + 0x40) mod 2 ^ 32).
Proof.
  apply (set_then_resolve (nsp_segments boot) 0x13 0x80100000 0x40 eq_refl).
  split; [discriminate|reflexivity].
Defined.

(** X2.  Only four bits name a segment.  Setting segment [seg + 16] writes
    the entry of [seg], and resolution looks at bits 24..27 of the address
    only: the four bits above them do not change the result. *)
Theorem segment_ids_alias (segs : list Z) (seg base addr : Z) :
  StackWalker.set_segment segs (seg + 16) base
  = StackWalker.set_segment segs seg base /\
  StackWalker.nsp_segmented_to_virtual segs (addr mod 2 ^ 28)
  = StackWalker.nsp_segmented_to_virtual segs addr.
Proof.
  split.
  - unfold StackWalker.set_segment. rewrite !land_4_bits.
    replace (seg + 16) with (seg + 1 * 16) by lia.
    rewrite Z.mod_add by lia. reflexivity.
  - rewrite !resolve_unfold.
    assert (Hid : (addr mod 2 ^ 28 / 2 ^ 24) mod 16 = (addr / 2 ^ 24) mod 16).
    { change (2 ^ 28) with (2 ^ 24 * 16).
      rewrite Z.rem_mul_r by lia.
      rewrite (Z.mul_comm (2 ^ 24)), Z.div_add by lia.
      rewrite (Z.div_small (addr mod 2 ^ 24)) by (apply Z.mod_pos_bound; lia).
      rewrite Z.add_0_l. apply Z.mod_mod. lia. }
    assert (Hoff : (addr mod 2 ^ 28) mod 2 ^ 24 = addr mod 2 ^ 24).
    { change (2 ^ 28) with (2 ^ 24 * 16).
      rewrite Z.rem_mul_r by lia.
      rewrite (Z.mul_comm (2 ^ 24)), Z.mod_add by lia.
      apply Z.mod_mod. lia. }
    rewrite Hid, Hoff. reflexivity.
Qed.

(** X3.  Sets compose as array writes: a second set of the same entry
    wins, and sets of different entries can be swapped. *)
Theorem set_segment_overwrite_commute (segs : list Z) (s1 s2 b1 b2 : Z) :
  StackWalker.set_segment (StackWalker.set_segment segs s1 b1) s1 b2
  = StackWalker.set_segment segs s1 b2 /\
  (Z.land s1 0xF <> Z.land s2 0xF ->
   StackWalker.set_segment (StackWalker.set_segment segs s1 b1) s2 b2
   = StackWalker.set_segment (StackWalker.set_segment segs s2 b2) s1 b1).
Proof.
  unfold StackWalker.set_segment. split.
  - apply list_insert_insert_eq.
  - intros Hne. apply list_insert_insert_ne.
    pose proof (segment_id_range s1). pose proof (segment_id_range s2). lia.
Qed.

(** X4.  With entry 0 unset, every address below 2^24 resolves to itself:
    unsegmented addresses pass through unchanged. *)
Theorem resolve_unsegmented_identity (segs : list Z) (addr : Z) :
  array_get segs 0 = 0 ->
  0 <= addr < 2 ^ 24 ->
  StackWalker.nsp_segmented_to_virtual segs addr = addr.
Proof.
  intros Hzero Haddr. rewrite resolve_unfold.
  rewrite (Z.div_small addr) by exact Haddr.
  change (0 mod 16) with 0. rewrite Hzero. simpl.
  apply Z.mod_small. exact Haddr.
Qed.

Lemma resolve_unsegmented_identity_witness :
  StackWalker.nsp_segmented_to_virtual
    (StackWalker.set_segment (nsp_segments boot) 3 0x1000) 0x2468 = 0x2468.
Proof.
  apply (resolve_unsegmented_identity
           (StackWalker.set_segment (nsp_segments boot) 3 0x1000) 0x2468
           eq_refl).
  split; [discriminate|reflexivity].
Defined.

(** ** The explicit-stack walker: stack discipline and dispatch *)

Module WalkerMore.
Import StackWalker WalkerFacts RunFacts.

Lemma iter_plus (a b : nat) (mem : memory) (dl : Z) (w : world)
    (dl_a : Z) (w_a : world) :
  iter a mem dl w = Some (dl_a, w_a) ->
  iter (a + b) mem dl w = iter b mem dl_a w_a.
Proof.
  revert dl w. induction a as [|a IH]; intros dl w; cbn.
  - intros [= <- <-]. reflexivity.
  - destruct (loop_body mem dl w) as [|dl2 w2]; [discriminate|]. apply IH.
Qed.

Lemma cursors_plus (a b : nat) (mem : memory) (dl : Z) (w : world)
    (dl_a : Z) (w_a : world) :
  iter a mem dl w = Some (dl_a, w_a) ->
  cursors (a + b) mem dl w = cursors a mem dl w ++ cursors b mem dl_a w_a.
Proof.
  revert dl w. induction a as [|a IH]; intros dl w; cbn.
  - intros [= <- <-]. reflexivity.
  - destruct (loop_body mem dl w) as [|dl2 w2]; [discriminate|].
    intros Hit. rewrite (IH _ _ Hit). reflexivity.
Qed.

Lemma cursors_inert_exact (cmds : list Gfx) (mem : memory) (dl : Z) (w : world) :
  stream_at mem dl cmds = true -> forallb inert cmds = true ->
  map mem (cursors (length cmds) mem dl w) = cmds.
Proof.
  intros Hat Hin.
  pose proof (cursors_inert cmds mem dl w 0 Hat Hin) as H.
  unfold visited in H. rewrite Nat.add_0_r in H. cbn in H.
  rewrite app_nil_r in H. exact H.
Qed.

(** Every opcode outside the three control cases falls in a group whose
    body is [break]. *)
Lemma dispatch_other (c : Z) :
  c <> G_ENDDL -> c <> G_DL -> c <> G_MOVEMEM ->
  dispatch c = OpRender \/ dispatch c = OpSync \/ dispatch c = OpDefault.
Proof.
  intros H1 H2 H3. unfold dispatch.
  destruct (Z.eqb_spec c G_ENDDL); [contradiction|].
  destruct (Z.eqb_spec c G_DL); [contradiction|].
  destruct (Z.eqb_spec c G_MOVEMEM); [contradiction|].
  destruct (mem_opcode c render_opcodes); [auto|].
  destruct (mem_opcode c sync_opcodes); auto.
Qed.

Lemma pop_after_push (x : Z) (w : world) :
  stack_ok w -> dl_stack_top w < DL_STACK_SIZE ->
  dl_pop (dl_push x w) =
  (x, {| nsp_segments := nsp_segments w;
         dl_stack := <[Z.to_nat (dl_stack_top w) := x]> (dl_stack w);
         dl_stack_top := dl_stack_top w;
         backend := backend w |}).
Proof.
  intros [Hlen Htop] Hroom. rewrite dl_push_room by exact Hroom.
  unfold dl_pop. cbn.
  destruct (Z.gtb_spec (dl_stack_top w + 1) 0); [|lia].
  replace (dl_stack_top w + 1 - 1) with (dl_stack_top w) by lia.
  unfold array_get. rewrite list_lookup_insert_eq; [reflexivity|].
  rewrite Hlen. unfold DL_STACK_SIZE in *. lia.
Qed.

End WalkerMore.

(** X5.  Push then pop gives back the pushed pointer and the depth it was
    pushed at, leaving the slots below untouched.  Popping the empty stack
    yields [NULL] and changes nothing.  At depth 16 the push is dropped, so
    the following pop hands back the entry already on top. *)
Theorem push_pop_round_trip (x : Z) (w : world) :
  stack_ok w ->
  (dl_stack_top w < 16 ->
   fst (dl_pop (dl_push x w)) = x /\
   dl_stack_top (snd (dl_pop (dl_push x w))) = dl_stack_top w /\
   (forall j, (j < Z.to_nat (dl_stack_top w))%nat ->
      dl_stack (snd (dl_pop (dl_push x w))) !! j = dl_stack w !! j)) /\
  (dl_stack_top w = 0 -> dl_pop w = (0, w)) /\
  (dl_stack_top w = 16 ->
   fst (dl_pop (dl_push x w)) = array_get (dl_stack w) 15 /\
   dl_stack_top (snd (dl_pop (dl_push x w))) = 15).
Proof.
  intros Hok. split; [|split].
  - intros Hroom. rewrite WalkerMore.pop_after_push by assumption. cbn.
    repeat split. intros j Hj. apply list_lookup_insert_ne. lia.
  - apply WalkerFacts.dl_pop_empty.
  - intros Hfull.
    rewrite WalkerFacts.dl_push_full by (unfold DL_STACK_SIZE; lia).
    unfold dl_pop. rewrite Hfull. cbn. split; reflexivity.
Qed.

Lemma push_pop_round_trip_witness :
  fst (dl_pop (dl_push 0x1008 boot)) = 0x1008 /\
  fst (dl_pop (dl_push 0x1008 Samples.full_depth)) = 0x3000.
Proof.
  assert (Hb : stack_ok boot) by (split; [reflexivity|cbv; split; discriminate]).
  assert (Hf : stack_ok Samples.full_depth)
    by (split; [reflexivity|cbv; split; discriminate]).
  destruct (push_pop_round_trip 0x1008 boot Hb) as (Hpp & _).
  destruct (push_pop_round_trip 0x1008 Samples.full_depth Hf) as (_ & _ & Hfull).
  split; [exact (proj1 (Hpp eq_refl))|exact (proj1 (Hfull eq_refl))].
Defined.

(** X6.  A command whose opcode is none of [G_ENDDL], [G_DL], [G_MOVEMEM]
    (render, sync and unknown opcodes alike) moves the cursor to the next
    command and changes no static; so does a [G_MOVEMEM] command whose
    index byte is not [G_MW_SEGMENT].  The walker never stops on a command
    it does not know. *)
Theorem other_opcodes_only_advance (mem : memory) (dl : Z) (w : world) :
  (opcode (mem dl) <> G_ENDDL /\ opcode (mem dl) <> G_DL /\
   opcode (mem dl) <> G_MOVEMEM) \/
  (opcode (mem dl) = G_MOVEMEM /\
   Z.land (Z.shiftr (w0 (mem dl)) 8) 0xFF <> G_MW_SEGMENT) ->
  loop_body mem dl w = Next (ptr_next dl) w /\
  (0 <= dl -> dl + 8 < 2 ^ 32 -> ptr_next dl = dl + 8).
Proof.
  intros Hcase. split.
  - destruct Hcase as [(H1 & H2 & H3)|[Hop Hidx]].
    + apply WalkerFacts.loop_body_inert. unfold inert.
      destruct (WalkerMore.dispatch_other _ H1 H2 H3) as [->|[->| ->]];
        reflexivity.
    + unfold loop_body. rewrite Hop.
      change (dispatch G_MOVEMEM) with OpMoveMem. cbv beta iota zeta.
      destruct (Z.eqb_spec (Z.land (Z.shiftr (w0 (mem dl)) 8) 0xFF)
                  G_MW_SEGMENT); [contradiction|reflexivity].
  - intros Hlo Hhi. unfold ptr_next, uptr, sizeof_Gfx.
    apply Z.mod_small. lia.
Qed.

Lemma other_opcodes_only_advance_witness :
  loop_body (store 0x1000 (mkGfx 0x55000000 7) zero_mem) 0x1000 boot
  = Next 0x1008 boot.
Proof.
  assert (Hop : opcode (store 0x1000 (mkGfx 0x55000000 7) zero_mem 0x1000)
                = 0x55) by (vm_compute; reflexivity).
  assert (Hcase :
    (opcode (store 0x1000 (mkGfx 0x55000000 7) zero_mem 0x1000) <> G_ENDDL /\
     opcode (store 0x1000 (mkGfx 0x55000000 7) zero_mem 0x1000) <> G_DL /\
     opcode (store 0x1000 (mkGfx 0x55000000 7) zero_mem 0x1000) <> G_MOVEMEM)
    \/
    (opcode (store 0x1000 (mkGfx 0x55000000 7) zero_mem 0x1000) = G_MOVEMEM /\
     Z.land (Z.shiftr (w0 (store 0x1000 (mkGfx 0x55000000 7) zero_mem 0x1000))
               8) 0xFF <> G_MW_SEGMENT)).
  { left. rewrite Hop. vm_compute. repeat split; discriminate. }
  destruct (other_opcodes_only_advance
              (store 0x1000 (mkGfx 0x55000000 7) zero_mem) 0x1000 boot Hcase)
    as [Hstep _].
  rewrite Hstep. vm_compute. reflexivity.
Defined.

(** X7.  A [G_MOVEMEM] command with index [G_MW_SEGMENT], offset byte [o]
    and second word [b] sets table entry [(o / 4) mod 16] to [b] and changes
    nothing else; offsets of 64 and above land on the entries of the ids
    they alias.  A later resolution of an address in that segment adds [b]
    to the offset. *)
Theorem segment_command_then_resolve (mem : memory) (dl : Z) (w : world) :
  length (nsp_segments w) = 16%nat ->
  opcode (mem dl) = G_MOVEMEM ->
  Z.land (Z.shiftr (w0 (mem dl)) 8) 0xFF = G_MW_SEGMENT ->
  let o := Z.land (w0 (mem dl)) 0xFF in
  let b := w1 (mem dl) in
  exists w',
    loop_body mem dl w = Next (ptr_next dl) w' /\
    array_get (nsp_segments w') ((o / 4) mod 16) = b /\
    (forall i, i <> Z.to_nat ((o / 4) mod 16) ->
       nsp_segments w' !! i = nsp_segments w !! i) /\
    dl_stack w' = dl_stack w /\ dl_stack_top w' = dl_stack_top w /\
    backend w' = backend w /\
    (forall off, 0 <= off < 2 ^ 24 ->
       nsp_segmented_to_virtual (nsp_segments w')
         (Z.lor (Z.shiftl ((o / 4) mod 16) 24) off)
       = if b =? 0 then off else (b + off) mod 2 ^ 32).
Proof.
  intros Hlen Hop Hidx o b.
  exists (nsp_set_segment (o / 4) b w).
  assert (Hid : (o / 4) mod 16 = Z.land (o / 4) 0xF) by (symmetry; apply land_4_bits).
  assert (Hentry : array_get (nsp_segments (nsp_set_segment (o / 4) b w))
                     ((o / 4) mod 16) = b).
  { rewrite Hid. cbn. apply set_segment_same. exact Hlen. }
  split; [apply WalkerFacts.loop_body_segment_set; assumption|].
  split; [exact Hentry|]. split; [|repeat split].
  - intros i Hi. cbn. apply set_segment_other. rewrite <- Hid. exact Hi.
  - intros off Hoff.
    rewrite SegmentFacts.resolve_fields;
      [|apply Z.mod_pos_bound; lia|exact Hoff].
    rewrite Hentry. reflexivity.
Qed.

Lemma segment_command_then_resolve_witness :
  exists w',
    loop_body Samples.segment_stream 0x1000 boot = Next 0x1008 w' /\
    array_get (nsp_segments w') 1 = 0x1000.
Proof.
  destruct (segment_command_then_resolve Samples.segment_stream 0x1000 boot
              eq_refl eq_refl eq_refl) as (w' & Hstep & Hentry & _).
  exists w'. split; [exact Hstep|exact Hentry].
Defined.

(** X8.  A CALL into a straight-line child of any length, met below depth
    16: the walker visits the CALL, the child's commands and its END, then
    stands at the command after the CALL with the stack depth it had before
    the CALL and the segment table unchanged. *)
Theorem call_runs_child_then_resumes
    (mem : memory) (dl : Z) (w : world) (cmds : list Gfx) (e : Gfx) :
  stack_ok w ->
  dl_stack_top w < DL_STACK_SIZE ->
  opcode (mem dl) = G_DL ->
  is_branch (mem dl) = false ->
  w1 (mem dl) <> 0 ->
  ptr_next dl <> 0 ->
  stream_at mem (w1 (mem dl)) (cmds ++ [e]) = true ->
  forallb inert cmds = true ->
  opcode e = G_ENDDL ->
  exists v,
    iter (length cmds + 2) mem dl w = Some (ptr_next dl, v) /\
    dl_stack_top v = dl_stack_top w /\
    nsp_segments v = nsp_segments w /\
    backend v = backend w /\
    visited (length cmds + 2) mem dl w = mem dl :: cmds ++ [e].
Proof.
  intros Hok Hroom Hop Hbr Htarget Hret Hat Hin He.
  set (ret := ptr_next dl). set (w' := dl_push ret w).
  assert (Hstep : loop_body mem dl w = Next (w1 (mem dl)) w').
  { rewrite WalkerFacts.loop_body_dl by assumption. rewrite Hbr.
    destruct (Z.eqb_spec (w1 (mem dl)) 0); [contradiction|reflexivity]. }
  rewrite StreamFacts.stream_at_app in Hat.
  apply andb_true_iff in Hat as [Hcmds Hend]. cbn in Hend.
  rewrite andb_true_r in Hend. apply Gfx_eqb_eq in Hend.
  pose proof (RunFacts.iter_inert cmds mem (w1 (mem dl)) w' Hcmds Hin) as Hchild.
  pose proof (WalkerMore.pop_after_push ret w Hok Hroom) as Hpop.
  fold w' in Hpop.
  assert (Hlast : loop_body mem (advance (length cmds) (w1 (mem dl))) w'
                  = Next ret (snd (dl_pop w'))).
  { rewrite WalkerFacts.loop_body_end by (rewrite Hend; exact He).
    rewrite Hpop. cbn. destruct (Z.eqb_spec ret 0); [contradiction|reflexivity]. }
  exists (snd (dl_pop w')).
  replace (length cmds + 2)%nat with (S (length cmds + 1)) by lia.
  split; [|split; [|split; [|split]]].
  - cbn [iter]. rewrite Hstep.
    rewrite (WalkerMore.iter_plus _ 1 _ _ _ _ _ Hchild). cbn [iter].
    rewrite Hlast. reflexivity.
  - rewrite Hpop. reflexivity.
  - rewrite Hpop. reflexivity.
  - rewrite Hpop. reflexivity.
  - unfold visited. cbn [cursors]. rewrite Hstep. cbn [map]. f_equal.
    rewrite (WalkerMore.cursors_plus _ 1 _ _ _ _ _ Hchild), map_app.
    rewrite WalkerMore.cursors_inert_exact by assumption.
    cbn [cursors]. rewrite Hlast. cbn [cursors map].
    rewrite Hend. reflexivity.
Qed.

Lemma call_runs_child_then_resumes_witness :
  exists v,
    iter 3 Samples.call_stream 0x1000 boot = Some (0x1008, v) /\
    dl_stack_top v = 0.
Proof.
  assert (Hok : stack_ok boot) by (split; [reflexivity|cbv; split; discriminate]).
  destruct (call_runs_child_then_resumes Samples.call_stream 0x1000 boot
              [Samples.render_a] gSPEndDisplayList
              Hok eq_refl eq_refl eq_refl ltac:(discriminate)
              ltac:(discriminate) eq_refl eq_refl eq_refl)
    as (v & Hit & Htop & _).
  exists v. split; [exact Hit|exact Htop].
Defined.

(** X9.  A CALL met with all 16 slots in use still transfers to the child,
    but its return address is lost: the stack is left as it is, and the
    END of a straight-line child resumes at the address held in slot 15,
    popping it. *)
Theorem call_at_full_depth_loses_return
    (mem : memory) (dl : Z) (w : world) (cmds : list Gfx) (e : Gfx) :
  dl_stack_top w = DL_STACK_SIZE ->
  opcode (mem dl) = G_DL ->
  is_branch (mem dl) = false ->
  w1 (mem dl) <> 0 ->
  array_get (dl_stack w) 15 <> 0 ->
  stream_at mem (w1 (mem dl)) (cmds ++ [e]) = true ->
  forallb inert cmds = true ->
  opcode e = G_ENDDL ->
  loop_body mem dl w = Next (w1 (mem dl)) w /\
  exists v,
    iter (length cmds + 2) mem dl w = Some (array_get (dl_stack w) 15, v) /\
    dl_stack_top v = 15 /\ dl_stack v = dl_stack w.
Proof.
  intros Hfull Hop Hbr Htarget Hslot Hat Hin He.
  assert (Hstep : loop_body mem dl w = Next (w1 (mem dl)) w).
  { rewrite WalkerFacts.loop_body_dl by assumption. rewrite Hbr.
    destruct (Z.eqb_spec (w1 (mem dl)) 0); [contradiction|].
    rewrite WalkerFacts.dl_push_full by lia. reflexivity. }
  split; [exact Hstep|].
  rewrite StreamFacts.stream_at_app in Hat.
  apply andb_true_iff in Hat as [Hcmds Hend]. cbn in Hend.
  rewrite andb_true_r in Hend. apply Gfx_eqb_eq in Hend.
  pose proof (RunFacts.iter_inert cmds mem (w1 (mem dl)) w Hcmds Hin) as Hchild.
  assert (Hpop : dl_pop w =
    (array_get (dl_stack w) 15,
     {| nsp_segments := nsp_segments w; dl_stack := dl_stack w;
        dl_stack_top := 15; backend := backend w |})).
  { unfold dl_pop. rewrite Hfull. reflexivity. }
  eexists. replace (length cmds + 2)%nat with (S (length cmds + 1)) by lia.
  split; [|split].
  - cbn [iter]. rewrite Hstep.
    rewrite (WalkerMore.iter_plus _ 1 _ _ _ _ _ Hchild). cbn [iter].
    rewrite WalkerFacts.loop_body_end by (rewrite Hend; exact He).
    rewrite Hpop. cbn [fst snd].
    destruct (Z.eqb_spec (array_get (dl_stack w) 15) 0); [contradiction|].
    reflexivity.
  - reflexivity.
  - reflexivity.
Qed.

Lemma call_at_full_depth_loses_return_witness :
  exists v,
    iter 2 Samples.deep_call_stream 0x1000 Samples.full_depth
    = Some (0x3000, v) /\ dl_stack_top v = 15.
Proof.
  destruct (call_at_full_depth_loses_return Samples.deep_call_stream 0x1000
              Samples.full_depth [] gSPEndDisplayList
              eq_refl eq_refl eq_refl ltac:(discriminate) ltac:(discriminate)
              eq_refl eq_refl eq_refl)
    as (_ & v & Hit & Htop & _).
  exists v. split; [exact Hit|exact Htop].
Defined.

(** ** The recursive walker *)

Module RecursiveFacts.
Import RecursiveWalker.

Lemma process_loop_S (fuel : nat) (mem : memory) (dl : Z) :
  process_loop (S fuel) mem dl =
  if Z.land (Z.shiftr (w0 (mem dl)) 24) 0xFF =? G_ENDDL then Some tt
  else if Z.land (Z.shiftr (w0 (mem dl)) 24) 0xFF =? G_DL then
    match (if w1 (mem dl) =? 0 then Some tt
           else process_loop fuel mem (w1 (mem dl))) with
    | None => None
    | Some _ =>
        if Z.land (w0 (mem dl)) 0x00FF0000 =? 0x00010000 then Some tt
        else process_loop fuel mem (ptr_next dl)
    end
  else process_loop fuel mem (ptr_next dl).
Proof. reflexivity. Qed.

Lemma process_loop_more_fuel (n m : nat) (mem : memory) (dl : Z) :
  process_loop n mem dl = Some tt -> (n <= m)%nat ->
  process_loop m mem dl = Some tt.
Proof.
  revert m dl. induction n as [|n IH]; intros m dl Hn Hle; [discriminate|].
  destruct m as [|m]; [lia|].
  rewrite process_loop_S in *.
  destruct (_ =? G_ENDDL); [reflexivity|].
  destruct (_ =? G_DL).
  - destruct (w1 (mem dl) =? 0).
    + destruct (_ =? 0x00010000); [reflexivity|]. apply IH; [exact Hn|lia].
    + destruct (process_loop n mem (w1 (mem dl))) as [[]|] eqn:Hchild;
        [|discriminate].
      rewrite (IH m _ Hchild) by lia.
      destruct (_ =? 0x00010000); [reflexivity|]. apply IH; [exact Hn|lia].
  - apply IH; [exact Hn|lia].
Qed.

End RecursiveFacts.

(** X10.  The recursive walker at a [G_DL] command: it returns exactly when
    the child list returns (a [NULL] child is skipped) and, unless the
    command is a branch, the rest of the current list returns as well.  So
    after a call it goes on with the commands that follow, and after a
    branch, even one with a [NULL] target, it never does. *)
Theorem recursive_walker_call_and_branch (mem : memory) (dl : Z) :
  StackWalker.opcode (mem dl) = G_DL ->
  ((exists fuel, RecursiveWalker.process_loop fuel mem dl = Some tt) <->
   (w1 (mem dl) = 0 \/
    exists f1, RecursiveWalker.process_loop f1 mem (w1 (mem dl)) = Some tt) /\
   (StackWalker.is_branch (mem dl) = true \/
    exists f2, RecursiveWalker.process_loop f2 mem (ptr_next dl) = Some tt)).
Proof.
  unfold StackWalker.opcode, StackWalker.is_branch. intros Hop. split.
  - intros [fuel Hret]. destruct fuel as [|fuel]; [discriminate|].
    rewrite RecursiveFacts.process_loop_S, Hop in Hret.
    change (G_DL =? G_ENDDL) with false in Hret.
    change (G_DL =? G_DL) with true in Hret. cbv iota in Hret.
    destruct (Z.eqb_spec (w1 (mem dl)) 0) as [Hnull|Hchild].
    + split; [left; exact Hnull|].
      destruct (_ =? 0x00010000); [left; reflexivity|right; eauto].
    + destruct (RecursiveWalker.process_loop fuel mem (w1 (mem dl)))
        as [[]|] eqn:Hc; [|discriminate].
      split; [right; eauto|].
      destruct (_ =? 0x00010000); [left; reflexivity|right; eauto].
  - intros [Hchild Hrest].
    assert (Hc : exists f1, forall f, (f1 <= f)%nat ->
               (if w1 (mem dl) =? 0 then Some tt
                else RecursiveWalker.process_loop f mem (w1 (mem dl)))
               = Some tt).
    { destruct Hchild as [Hnull|[f1 Hf1]].
      - exists 0%nat. intros f _. rewrite Hnull. reflexivity.
      - exists f1. intros f Hf. destruct (_ =? 0); [reflexivity|].
        exact (RecursiveFacts.process_loop_more_fuel _ _ _ _ Hf1 Hf). }
    assert (Hr : exists f2, forall f, (f2 <= f)%nat ->
               (if Z.land (w0 (mem dl)) 0x00FF0000 =? 0x00010000
                then Some tt
                else RecursiveWalker.process_loop f mem (ptr_next dl))
               = Some tt).
    { destruct Hrest as [Hbr|[f2 Hf2]].
      - exists 0%nat. intros f _. rewrite Hbr. reflexivity.
      - exists f2. intros f Hf. destruct (_ =? 0x00010000); [reflexivity|].
        exact (RecursiveFacts.process_loop_more_fuel _ _ _ _ Hf2 Hf). }
    destruct Hc as [f1 Hc], Hr as [f2 Hr].
    exists (S (Nat.max f1 f2)).
    rewrite RecursiveFacts.process_loop_S, Hop.
    change (G_DL =? G_ENDDL) with false. change (G_DL =? G_DL) with true.
    cbv iota. rewrite Hc by lia. apply Hr. lia.
Qed.

Lemma recursive_walker_call_and_branch_witness :
  exists fuel,
    RecursiveWalker.process_loop fuel Samples.null_branch_stream 0x1000
    = Some tt.
Proof.
  apply (recursive_walker_call_and_branch Samples.null_branch_stream 0x1000
           eq_refl).
  split; left; reflexivity.
Defined.

(** ** Builders against the walker's decoder *)

Module BuilderFacts.
Import BitFacts.

(** The decoded opcode of a built word: the builder's opcode, or-ed with
    whatever the operand fields carry above bit 23. *)
Lemma top_byte_spill (c low : Z) :
  0 <= c < 256 -> 0 <= low < 2 ^ 32 ->
  Z.land (Z.shiftr (u32 (Z.lor (Z.shiftl c 24) low)) 24) 0xFF
  = Z.lor c (low / 2 ^ 24).
Proof.
  intros Hc Hlow.
  assert (Hhi : 0 <= Z.shiftl c 24 < 2 ^ 32).
  { exact (shiftl_below c 24 8 ltac:(lia) ltac:(lia) Hc). }
  assert (Hall : 0 <= Z.lor (Z.shiftl c 24) low < 2 ^ 32).
  { apply lor_below; lia. }
  unfold u32. rewrite Z.mod_small by exact Hall.
  rewrite Z.shiftr_lor, Z.shiftr_shiftl_l by lia.
  change (24 - 24) with 0. rewrite Z.shiftl_0_r.
  rewrite (Z.shiftr_div_pow2 low) by lia.
  assert (Hq : 0 <= low / 2 ^ 24 < 2 ^ 8).
  { split; [apply Z.div_pos; lia|apply Z.div_lt_upper_bound; lia]. }
  rewrite land_8_bits_top. apply Z.mod_small.
  pose proof (lor_below c (low / 2 ^ 24) 8 ltac:(lia) ltac:(lia) Hq). lia.
Qed.

End BuilderFacts.

(** X11.  A vertex load built by [gSPVertex] whose count and end index fit
    their fields keeps its opcode: the walker decodes [G_VTX], classes the
    command as a render command and steps over it. *)
Theorem gSPVertex_decodes_as_render (vtx n v0 : Z) :
  0 <= n < 2 ^ 12 ->
  0 <= v0 + n < 2 ^ 23 ->
  StackWalker.opcode (gSPVertex vtx n v0) = G_VTX /\
  StackWalker.dispatch (StackWalker.opcode (gSPVertex vtx n v0))
  = StackWalker.OpRender /\
  (forall mem dl w,
     StackWalker.loop_body (store dl (gSPVertex vtx n v0) mem) dl w
     = StackWalker.Next (ptr_next dl) w).
Proof.
  intros Hn Hend.
  assert (Hop : StackWalker.opcode (gSPVertex vtx n v0) = G_VTX).
  { unfold StackWalker.opcode, gSPVertex. cbn [w0].
    rewrite <- Z.lor_assoc. apply BitFacts.top_byte; [cbv; split; [discriminate|reflexivity]|].
    apply BitFacts.lor_below; [lia| |].
    - exact (BitFacts.shiftl_below n 12 12 ltac:(lia) ltac:(lia) Hn).
    - rewrite Z.shiftl_mul_pow2 by lia. change (2 ^ 1) with 2. lia. }
  split; [exact Hop|]. split; [rewrite Hop; reflexivity|].
  intros mem dl w. apply WalkerFacts.loop_body_render.
  unfold store. rewrite Z.eqb_refl, Hop. reflexivity.
Qed.

Lemma gSPVertex_decodes_as_render_witness :
  StackWalker.opcode (gSPVertex 0x4000 32 0) = G_VTX.
Proof.
  apply (gSPVertex_decodes_as_render 0x4000 32 0);
    split; first [discriminate|reflexivity].
Defined.

(** X12.  The opcode the walker decodes from a [gSP1Triangle] command is
    [G_TRI1] or-ed with [v0 / 128].  With the first index below 128 the
    command is a render command; with it in 128..255 the product [v0 * 2]
    reaches bit 24, the opcode reads 0x0D, and the walker takes the command
    for an unknown one. *)
Theorem gSP1Triangle_opcode (v0 v1 v2 flag : Z) :
  0 <= v0 < 2 ^ 14 ->
  0 <= v1 < 2 ^ 15 ->
  0 <= v2 < 2 ^ 23 ->
  StackWalker.opcode (gSP1Triangle v0 v1 v2 flag) = Z.lor G_TRI1 (v0 / 128) /\
  (v0 < 128 ->
   StackWalker.dispatch (StackWalker.opcode (gSP1Triangle v0 v1 v2 flag))
   = StackWalker.OpRender) /\
  (128 <= v0 < 256 ->
   StackWalker.opcode (gSP1Triangle v0 v1 v2 flag) = 0x0D /\
   StackWalker.dispatch (StackWalker.opcode (gSP1Triangle v0 v1 v2 flag))
   = StackWalker.OpDefault).
Proof.
  intros H0 H1 H2.
  assert (HA : 0 <= Z.shiftl (v0 * 2) 16 < 2 ^ 32).
  { exact (BitFacts.shiftl_below (v0 * 2) 16 16 ltac:(lia) ltac:(lia)
             ltac:(lia)). }
  assert (HB : 0 <= Z.shiftl (v1 * 2) 8 < 2 ^ 24).
  { exact (BitFacts.shiftl_below (v1 * 2) 8 16 ltac:(lia) ltac:(lia)
             ltac:(lia)). }
  assert (HC : 0 <= v2 * 2 < 2 ^ 24) by lia.
  assert (HBC : 0 <= Z.lor (Z.shiftl (v1 * 2) 8) (v2 * 2) < 2 ^ 24).
  { apply BitFacts.lor_below; lia. }
  assert (Hop : StackWalker.opcode (gSP1Triangle v0 v1 v2 flag)
                = Z.lor G_TRI1 (v0 / 128)).
  { unfold StackWalker.opcode, gSP1Triangle. cbn [w0].
    rewrite <- !Z.lor_assoc.
    rewrite BuilderFacts.top_byte_spill;
      [|cbv; split; [discriminate|reflexivity]|apply BitFacts.lor_below; lia].
    f_equal. rewrite <- Z.shiftr_div_pow2 by lia.
    rewrite Z.shiftr_lor, (BitFacts.shiftr_small _ 24 ltac:(lia) HBC).
    rewrite Z.lor_0_r, Z.shiftr_shiftl_r by lia.
    change (24 - 16) with 8. rewrite Z.shiftr_div_pow2 by lia.
    change (2 ^ 8) with (128 * 2). apply Z.div_mul_cancel_r; lia. }
  split; [exact Hop|]. split.
  - intros Hlow. rewrite Hop, (Z.div_small v0 128) by lia. reflexivity.
  - intros Hhigh.
    assert (Hq : v0 / 128 = 1).
    { symmetry. apply Z.div_unique with (r := v0 - 128); lia. }
    rewrite Hop, Hq. split; reflexivity.
Qed.

Lemma gSP1Triangle_opcode_witness :
  StackWalker.opcode (gSP1Triangle 130 1 2 0) = Z.lor G_TRI1 (130 / 128).
Proof.
  apply (gSP1Triangle_opcode 130 1 2 0); split; first [discriminate|reflexivity].
Defined.

(** X13.  [gSPTextureRectangle] emits two [Gfx] entries, and the walker
    decodes the second as a command of its own, with opcode [s / 256].
    With [s] below 256 that is a no-op and both entries are stepped over.
    With [s] in 0x0600..0x06FF it is [G_DL]: unless the word made of [dsdx]
    and [dtdy] is zero, the walk leaves the stream for the address that
    word spells. *)
Theorem texture_rectangle_second_word
    (ulx uly lrx lry tile s t dsdx dtdy : Z) :
  0 <= lrx < 2 ^ 12 -> 0 <= lry < 2 ^ 12 ->
  0 <= s < 2 ^ 15 -> 0 <= t < 2 ^ 16 ->
  let cmds := Builders.gSPTextureRectangle ulx uly lrx lry tile s t dsdx dtdy in
  length cmds = 2%nat /\
  StackWalker.opcode (nth 0 cmds gDPNoOp) = G_TEXRECT /\
  StackWalker.opcode (nth 1 cmds gDPNoOp) = s / 256 /\
  w1 (nth 1 cmds gDPNoOp) = u32 (Z.lor (Z.shiftl dsdx 16) dtdy) /\
  (forall mem dl w, stream_at mem dl cmds = true ->
     (s < 256 ->
      StackWalker.iter 2 mem dl w = Some (advance 2 dl, w)) /\
     (s / 256 = G_DL -> u32 (Z.lor (Z.shiftl dsdx 16) dtdy) <> 0 ->
      exists v,
        StackWalker.iter 2 mem dl w
        = Some (u32 (Z.lor (Z.shiftl dsdx 16) dtdy), v))).
Proof.
  intros Hlrx Hlry Hs Ht cmds.
  assert (Hop1 : StackWalker.opcode (nth 0 cmds gDPNoOp) = G_TEXRECT).
  { unfold StackWalker.opcode. cbn [cmds Builders.gSPTextureRectangle nth w0].
    rewrite <- Z.lor_assoc.
    apply BitFacts.top_byte; [cbv; split; [discriminate|reflexivity]|].
    apply BitFacts.lor_below; [lia| |lia].
    exact (BitFacts.shiftl_below lrx 12 12 ltac:(lia) ltac:(lia) Hlrx). }
  assert (Hop2 : StackWalker.opcode (nth 1 cmds gDPNoOp) = s / 256).
  { unfold StackWalker.opcode. cbn [cmds Builders.gSPTextureRectangle nth w0].
    assert (Hhi : 0 <= Z.shiftl s 16 < 2 ^ 32).
    { exact (BitFacts.shiftl_below s 16 16 ltac:(lia) ltac:(lia)
               ltac:(lia)). }
    unfold u32. rewrite Z.mod_small by (apply BitFacts.lor_below; lia).
    rewrite Z.shiftr_lor, Z.shiftr_shiftl_r by lia.
    rewrite (BitFacts.shiftr_small t 24) by lia.
    change (24 - 16) with 8. rewrite Z.lor_0_r, Z.shiftr_div_pow2 by lia.
    change (2 ^ 8) with 256. rewrite BitFacts.land_8_bits_top.
    apply Z.mod_small. split; [apply Z.div_pos; lia|].
    apply Z.div_lt_upper_bound; lia. }
  split; [reflexivity|]. split; [exact Hop1|]. split; [exact Hop2|].
  split; [reflexivity|].
  intros mem dl w Hat.
  change cmds with [nth 0 cmds gDPNoOp; nth 1 cmds gDPNoOp] in Hat.
  cbn [stream_at] in Hat. rewrite andb_true_r in Hat.
  apply andb_true_iff in Hat as [Hm1 Hm2].
  apply Gfx_eqb_eq in Hm1. apply Gfx_eqb_eq in Hm2.
  assert (Hstep1 : forall v, StackWalker.loop_body mem dl v
                             = StackWalker.Next (ptr_next dl) v).
  { intros v. apply WalkerFacts.loop_body_render. rewrite Hm1, Hop1.
    reflexivity. }
  split.
  - intros Hsmall. cbn [StackWalker.iter]. rewrite Hstep1.
    rewrite WalkerFacts.loop_body_inert; [reflexivity|].
    unfold StackWalker.inert. rewrite Hm2, Hop2.
    rewrite (Z.div_small s 256) by lia. reflexivity.
  - intros Hdl Htarget. cbn [StackWalker.iter]. rewrite Hstep1.
    rewrite WalkerFacts.loop_body_dl by (rewrite Hm2, Hop2; exact Hdl).
    rewrite Hm2.
    change (w1 (nth 1 cmds gDPNoOp))
      with (u32 (Z.lor (Z.shiftl dsdx 16) dtdy)).
    destruct (Z.eqb_spec (u32 (Z.lor (Z.shiftl dsdx 16) dtdy)) 0);
      [contradiction|].
    destruct (StackWalker.is_branch (nth 1 cmds gDPNoOp)); eauto.
Qed.

Lemma texture_rectangle_second_word_witness :
  StackWalker.opcode
    (nth 1 (Builders.gSPTextureRectangle 0 0 64 64 0 0x0600 0 1024 1024)
       gDPNoOp) = 0x0600 / 256.
Proof.
  apply (texture_rectangle_second_word 0 0 64 64 0 0x0600 0 1024 1024);
    split; first [discriminate|reflexivity].
Defined.

(** ** The message queue of os_stubs.h *)

Module QueueFacts.
Import OsStubs.

Lemma mod_window (a i j c : Z) :
  0 < c -> 0 <= i < j -> j - i < c -> (a + i) mod c <> (a + j) mod c.
Proof.
  intros Hc Hij Hlt Heq.
  assert (Hz : ((a + j) - (a + i)) mod c = 0).
  { rewrite Zminus_mod, Heq, Z.sub_diag. apply Z.mod_0_l. lia. }
  replace (a + j - (a + i)) with (j - i) in Hz by lia.
  rewrite Z.mod_small in Hz by lia. lia.
Qed.

Lemma slot_index (q : OSMesgQueue) (i : Z) :
  queue_ok q -> 0 <= i ->
  Z.rem (first q + i) (msgCount q) = (first q + i) mod msgCount q /\
  0 <= (first q + i) mod msgCount q < msgCount q.
Proof.
  intros (Hc & _ & _ & Hf) Hi. split.
  - apply Z.rem_mod_nonneg; lia.
  - apply Z.mod_pos_bound. lia.
Qed.

Lemma pending_length (q : OSMesgQueue) :
  length (pending q) = Z.to_nat (validCount q).
Proof. unfold pending. rewrite length_map, length_seq. reflexivity. Qed.

Lemma send_pending (q : OSMesgQueue) (m flag : Z) :
  queue_ok q -> validCount q < msgCount q ->
  exists q',
    osSendMesg q m flag = (0, q') /\ queue_ok q' /\
    pending q' = pending q ++ [m].
Proof.
  intros Hok Hroom. pose proof Hok as (Hc & Hlen & Hv & Hf).
  unfold osSendMesg.
  destruct (Z.ltb_spec (validCount q) (msgCount q)); [|lia].
  eexists. split; [reflexivity|]. split.
  - unfold queue_ok. cbn. rewrite length_insert. repeat split; lia.
  - unfold pending. cbn.
    replace (Z.to_nat (validCount q + 1)) with (S (Z.to_nat (validCount q)))
      by lia.
    rewrite seq_S, map_app. cbn [map Nat.add]. f_equal.
    + apply map_ext_in. intros i Hi. apply in_seq in Hi.
      destruct (slot_index q (validCount q) Hok ltac:(lia)) as [Hr1 Hb1].
      destruct (slot_index q (Z.of_nat i) Hok ltac:(lia)) as [Hr2 Hb2].
      unfold array_get. rewrite list_lookup_insert_ne; [reflexivity|].
      rewrite Hr1, Hr2.
      pose proof (mod_window (first q) (Z.of_nat i) (validCount q)
                    (msgCount q) Hc ltac:(lia) ltac:(lia)).
      lia.
    + destruct (slot_index q (validCount q) Hok ltac:(lia)) as [Hr1 Hb1].
      rewrite Z2Nat.id by lia. unfold array_get.
      rewrite list_lookup_insert_eq; [reflexivity|].
      rewrite Hr1, Hlen. lia.
Qed.

Lemma recv_pending (q : OSMesgQueue) (flag : Z) :
  queue_ok q -> 0 < validCount q ->
  exists x q',
    osRecvMesg q true flag = (0, Some x, q') /\ queue_ok q' /\
    pending q = x :: pending q'.
Proof.
  intros Hok Hsome. pose proof Hok as (Hc & Hlen & Hv & Hf).
  unfold osRecvMesg.
  destruct (Z.gtb_spec (validCount q) 0); [|lia].
  assert (Hfirst : Z.rem (first q + 1) (msgCount q)
                   = (first q + 1) mod msgCount q)
    by (apply Z.rem_mod_nonneg; lia).
  assert (Hfb : 0 <= (first q + 1) mod msgCount q < msgCount q)
    by (apply Z.mod_pos_bound; lia).
  eexists _, _. split; [reflexivity|]. split.
  - unfold queue_ok. cbn. rewrite Hfirst. repeat split; lia.
  - unfold pending. cbn.
    replace (Z.to_nat (validCount q)) with (S (Z.to_nat (validCount q - 1)))
      by lia.
    cbn [seq map]. f_equal.
    + rewrite Z.add_0_r, Z.rem_mod_nonneg, Z.mod_small by lia. reflexivity.
    + rewrite <- seq_shift, map_map. apply map_ext_in. intros i Hi.
      rewrite Hfirst.
      rewrite !Z.rem_mod_nonneg by lia.
      rewrite Zplus_mod_idemp_l. f_equal. f_equal. lia.
Qed.

End QueueFacts.

(** X14.  The queue is first-in first-out on the send side: a send into a
    queue with a free slot returns 0 and puts the message behind all the
    pending ones, and it keeps the indices within the buffer.  [osJamMesg]
    does the same: the message goes to the back, not to the front. *)
Theorem send_appends_behind_pending (q : OsStubs.OSMesgQueue) (m flag : Z) :
  OsStubs.queue_ok q ->
  OsStubs.validCount q < OsStubs.msgCount q ->
  exists q',
    OsStubs.osSendMesg q m flag = (0, q') /\
    OsStubs.osJamMesg q m flag = (0, q') /\
    OsStubs.queue_ok q' /\
    OsStubs.pending q' = OsStubs.pending q ++ [m].
Proof.
  intros Hok Hroom.
  destruct (QueueFacts.send_pending q m flag Hok Hroom) as (q' & Hs & Hq & Hp).
  exists q'. repeat split; try assumption; apply Hq.
Qed.

Lemma send_appends_behind_pending_witness :
  exists q',
    OsStubs.osSendMesg OsStubs.wrapped_queue 14 0 = (0, q') /\
    OsStubs.pending q' = [12; 13; 14].
Proof.
  assert (Hok : OsStubs.queue_ok OsStubs.wrapped_queue).
  { vm_compute. repeat split; discriminate. }
  destruct (send_appends_behind_pending OsStubs.wrapped_queue 14 0 Hok eq_refl)
    as (q' & Hs & _ & _ & Hp).
  exists q'. split; [exact Hs|exact Hp].
Defined.

(** X15.  A receive on a queue that holds messages returns 0, hands back
    the oldest pending message and leaves the others pending in their
    order; with a [NULL] destination the message is dropped all the same.
    A receive on an empty queue returns -1 and changes nothing, with
    [OS_MESG_BLOCK] as with [OS_MESG_NOBLOCK]: it never waits. *)
Theorem recv_takes_oldest (q : OsStubs.OSMesgQueue) (flag : Z) :
  OsStubs.queue_ok q ->
  (0 < OsStubs.validCount q ->
   exists x q',
     OsStubs.osRecvMesg q true flag = (0, Some x, q') /\
     OsStubs.osRecvMesg q false flag = (0, None, q') /\
     OsStubs.queue_ok q' /\
     OsStubs.pending q = x :: OsStubs.pending q') /\
  (OsStubs.validCount q = 0 ->
   OsStubs.pending q = [] /\
   forall want, OsStubs.osRecvMesg q want flag = (-1, None, q)).
Proof.
  intros Hok. split.
  - intros Hsome.
    destruct (QueueFacts.recv_pending q flag Hok Hsome)
      as (x & q' & Hr & Hq & Hp).
    exists x, q'. repeat split; try assumption; try apply Hq.
    unfold OsStubs.osRecvMesg in *.
    destruct (OsStubs.validCount q >? 0); [|discriminate].
    injection Hr as _ <-. reflexivity.
  - intros Hempty. split.
    + unfold OsStubs.pending. rewrite Hempty. reflexivity.
    + intros want. unfold OsStubs.osRecvMesg. rewrite Hempty. reflexivity.
Qed.

Lemma recv_takes_oldest_witness :
  exists q',
    OsStubs.osRecvMesg OsStubs.wrapped_queue true OsStubs.OS_MESG_BLOCK
    = (0, Some 12, q') /\
    OsStubs.pending q' = [13].
Proof.
  assert (Hok : OsStubs.queue_ok OsStubs.wrapped_queue).
  { vm_compute. repeat split; discriminate. }
  destruct (recv_takes_oldest OsStubs.wrapped_queue OsStubs.OS_MESG_BLOCK Hok)
    as (Hsome & _).
  destruct (Hsome eq_refl) as (x & q' & Hr & _ & _ & Hp).
  injection Hp as Hx Hp. subst x.
  exists q'. split; [exact Hr|symmetry; exact Hp].
Defined.

Module QueueRuns.
Import OsStubs QueueFacts.

(** Sending a list: the first messages that find a free slot are queued,
    the others are refused. *)
Lemma send_all_spec (ms : list Z) (q : OSMesgQueue) :
  queue_ok q ->
  let free := Z.to_nat (msgCount q - validCount q) in
  fst (send_all q ms)
  = replicate (Nat.min free (length ms)) 0
    ++ replicate (length ms - free) (-1) /\
  queue_ok (snd (send_all q ms)) /\
  pending (snd (send_all q ms)) = pending q ++ take free ms.
Proof.
  revert q. induction ms as [|m ms IH]; intros q Hok free.
  - cbn. rewrite Nat.min_0_r, take_nil, !app_nil_r. cbn. auto.
  - pose proof Hok as (Hc & Hlen & Hv & Hf).
    destruct (Z.lt_ge_cases (validCount q) (msgCount q)) as [Hroom|Hfull].
    + destruct (send_pending q m OS_MESG_NOBLOCK Hok Hroom)
        as (q1 & Hs & Hq1 & Hp1).
      cbn [send_all]. rewrite Hs.
      destruct (IH q1 Hq1) as (Hst & Hq2 & Hp2).
      destruct (send_all q1 ms) as [rs q2]. cbn [fst snd] in *.
      assert (Hv1 : validCount q1 = validCount q + 1).
      { unfold osSendMesg in Hs.
        destruct (validCount q <? msgCount q); [|discriminate].
        injection Hs as <-. reflexivity. }
      assert (Hc1 : msgCount q1 = msgCount q).
      { unfold osSendMesg in Hs.
        destruct (validCount q <? msgCount q); [|discriminate].
        injection Hs as <-. reflexivity. }
      rewrite Hv1, Hc1 in Hst, Hp2.
      assert (Hfree : free = S (Z.to_nat (msgCount q - (validCount q + 1)))).
      { unfold free. lia. }
      rewrite Hfree. cbn [length Nat.min Nat.sub take replicate app].
      rewrite Hst, Hp2, Hp1, <- app_assoc. auto.
    + assert (Hfree : free = 0%nat) by (unfold free; lia).
      assert (Hs : osSendMesg q m OS_MESG_NOBLOCK = (-1, q)).
      { unfold osSendMesg.
        destruct (Z.ltb_spec (validCount q) (msgCount q)); [lia|reflexivity]. }
      cbn [send_all]. rewrite Hs.
      destruct (IH q Hok) as (Hst & Hq2 & Hp2). fold free in Hst, Hp2.
      destruct (send_all q ms) as [rs q2]. cbn [fst snd] in *.
      rewrite Hfree in *. cbn [Nat.min replicate app take] in *.
      rewrite Nat.sub_0_r in *. cbn [length replicate].
      rewrite Hst. auto.
Qed.

(** Receiving as many times as messages are pending hands them all back,
    oldest first, and empties the queue. *)
Lemma recv_all_spec (n : nat) (q : OSMesgQueue) :
  queue_ok q -> Z.to_nat (validCount q) = n ->
  fst (recv_n q n) = map Some (pending q) /\
  queue_ok (snd (recv_n q n)) /\
  validCount (snd (recv_n q n)) = 0.
Proof.
  revert q. induction n as [|n IH]; intros q Hok Hn.
  - pose proof Hok as (_ & _ & Hv & _). cbn.
    unfold pending. rewrite Hn. split; [reflexivity|]. split; [exact Hok|lia].
  - destruct (recv_pending q OS_MESG_NOBLOCK Hok ltac:(lia))
      as (x & q1 & Hr & Hq1 & Hp).
    assert (Hv1 : validCount q1 = validCount q - 1).
    { unfold osRecvMesg in Hr. destruct (validCount q >? 0); [|discriminate].
      injection Hr as _ <-. reflexivity. }
    cbn [recv_n]. rewrite Hr.
    destruct (IH q1 Hq1 ltac:(lia)) as (Hgot & Hq2 & Hz).
    destruct (recv_n q1 n) as [gs q2]. cbn [fst snd] in *.
    rewrite Hp, Hgot. auto.
Qed.

End QueueRuns.

(** X16.  A queue created on an [n]-slot buffer accepts exactly [n]
    messages: of a list sent in turn the first [n] get status 0 and are
    pending in the order sent, every later one gets -1 and is dropped.  A
    queue created with a count of 0 or less refuses every message. *)
Theorem queue_capacity (buffer ms : list Z) (count : Z) :
  0 < count ->
  length buffer = Z.to_nat count ->
  let n := Z.to_nat count in
  let q := OsStubs.osCreateMesgQueue buffer count in
  fst (OsStubs.send_all q ms)
  = replicate (Nat.min n (length ms)) 0 ++ replicate (length ms - n) (-1) /\
  OsStubs.pending (snd (OsStubs.send_all q ms)) = take n ms /\
  OsStubs.queue_ok (snd (OsStubs.send_all q ms)) /\
  (forall b c m flag, c <= 0 ->
     OsStubs.osSendMesg (OsStubs.osCreateMesgQueue b c) m flag
     = (-1, OsStubs.osCreateMesgQueue b c)).
Proof.
  intros Hcount Hlen n q.
  assert (Hok : OsStubs.queue_ok q).
  { unfold OsStubs.queue_ok, q. cbn. repeat split; lia. }
  destruct (QueueRuns.send_all_spec ms q Hok) as (Hst & Hq & Hp).
  unfold q in Hst, Hp at 1. cbn [OsStubs.msgCount OsStubs.validCount
    OsStubs.osCreateMesgQueue] in Hst, Hp.
  rewrite Z.sub_0_r in Hst, Hp.
  split; [exact Hst|]. split; [exact Hp|]. split; [exact Hq|].
  intros b c m flag Hc. unfold OsStubs.osSendMesg. cbn.
  destruct (Z.ltb_spec 0 c); [lia|reflexivity].
Qed.

Lemma queue_capacity_witness :
  fst (OsStubs.send_all (OsStubs.osCreateMesgQueue [0; 0] 2) [7; 8; 9])
  = [0; 0; -1] /\
  OsStubs.pending
    (snd (OsStubs.send_all (OsStubs.osCreateMesgQueue [0; 0] 2) [7; 8; 9]))
  = [7; 8].
Proof.
  destruct (queue_capacity [0; 0] [7; 8; 9] 2 eq_refl eq_refl)
    as (Hst & Hp & _).
  split; [exact Hst|exact Hp].
Defined.

(** X17.  Round trip: messages sent into a fresh queue that has room for
    all of them come back from as many receives in the order they were
    sent, and the queue is empty again. *)
Theorem queue_round_trip (buffer ms : list Z) (count : Z) :
  0 < count ->
  length buffer = Z.to_nat count ->
  (length ms <= Z.to_nat count)%nat ->
  let q := snd (OsStubs.send_all (OsStubs.osCreateMesgQueue buffer count) ms) in
  Forall (fun r => r = 0)
    (fst (OsStubs.send_all (OsStubs.osCreateMesgQueue buffer count) ms)) /\
  fst (OsStubs.recv_n q (length ms)) = map Some ms /\
  OsStubs.pending (snd (OsStubs.recv_n q (length ms))) = [].
Proof.
  intros Hcount Hlen Hfit q.
  assert (Hok : OsStubs.queue_ok (OsStubs.osCreateMesgQueue buffer count)).
  { unfold OsStubs.queue_ok. cbn. repeat split; lia. }
  destruct (QueueRuns.send_all_spec ms _ Hok) as (Hst & Hq & Hp).
  cbn [OsStubs.msgCount OsStubs.validCount OsStubs.osCreateMesgQueue]
    in Hst, Hp.
  rewrite Z.sub_0_r in Hst, Hp.
  change (OsStubs.pending (OsStubs.osCreateMesgQueue buffer count))
    with (@nil Z) in Hp.
  rewrite take_ge in Hp by exact Hfit. cbn [app] in Hp.
  fold q in Hq, Hp.
  assert (Hn : Z.to_nat (OsStubs.validCount q) = length ms).
  { rewrite <- QueueFacts.pending_length, Hp. reflexivity. }
  destruct (QueueRuns.recv_all_spec (length ms) q Hq Hn) as (Hgot & Hq' & Hz).
  split; [|split].
  - rewrite Hst. replace (length ms - Z.to_nat count)%nat with 0%nat by lia.
    rewrite app_nil_r. apply Forall_replicate. reflexivity.
  - rewrite Hgot, Hp. reflexivity.
  - unfold OsStubs.pending. rewrite Hz. reflexivity.
Qed.

Lemma queue_round_trip_witness :
  fst (OsStubs.recv_n
         (snd (OsStubs.send_all (OsStubs.osCreateMesgQueue [0; 0; 0] 3)
                 [5; 6])) 2)
  = [Some 5; Some 6].
Proof.
  destruct (queue_round_trip [0; 0; 0] [5; 6] 3 eq_refl eq_refl
              ltac:(cbv; lia)) as (_ & Hgot & _).
  exact Hgot.
Defined.

(** ** Keypad and pad manager *)

Module InputFacts.
Import Input.

Lemma high_bits_clear (x i : Z) :
  0 <= x < 2 ^ 16 -> 16 <= i -> Z.testbit x i = false.
Proof.
  intros Hx Hi. rewrite <- (Z.mod_small x (2 ^ 16)) by exact Hx.
  apply Z.mod_pow2_bits_high. lia.
Qed.

Lemma u16_bit (x i : Z) :
  0 <= i ->
  Z.testbit (u16 x) i = (i <? 16) && Z.testbit x i.
Proof.
  intros Hi. unfold u16. destruct (Z.ltb_spec i 16).
  - rewrite Z.mod_pow2_bits_low by lia. reflexivity.
  - rewrite Z.mod_pow2_bits_high by lia. reflexivity.
Qed.

Lemma u16_range (x : Z) : 0 <= u16 x < 2 ^ 16.
Proof. unfold u16. apply Z.mod_pos_bound. lia. Qed.

Lemma poll_buttons_range (keys : Z -> bool) (table : list (Z * Z)) (b : Z) :
  0 <= b < 2 ^ 16 -> 0 <= poll_buttons keys table b < 2 ^ 16.
Proof.
  revert b. induction table as [|[key mask] rest IH]; intros b Hb; cbn.
  - exact Hb.
  - destruct (key =? 0); [exact Hb|]. apply IH.
    destruct (keys key); [apply u16_range|exact Hb].
Qed.

Lemma port0_after (keys : Z -> bool) (input : list InputCompat) :
  nth 0 (snd (PadMgr_GetInput_Nsp keys input 0)) zero_input
  = update_port0 (input_nsp_poll keys) (nth 0 input zero_input).
Proof. reflexivity. Qed.

End InputFacts.

(** X18.  After an unlocked [PadMgr_GetInput_Nsp], a button is in
    [press_button] exactly when it is down now and was not down at the
    previous call, and in [rel_button] exactly when it was down and is not
    any more; no button is in both, and together they are the buttons whose
    state changed.  The previous state is the one the last call left as
    current. *)
Theorem pad_press_and_release
    (keys : Z -> bool) (input : list Input.InputCompat) (i : Z) :
  0 <= Input.cur_button (nth 0 input Input.zero_input) < 2 ^ 16 ->
  0 <= i ->
  let was := Input.cur_button (nth 0 input Input.zero_input) in
  let out := nth 0 (snd (Input.PadMgr_GetInput_Nsp keys input 0))
               Input.zero_input in
  Input.cur_button out = Input.button (Input.input_nsp_poll keys) /\
  Input.prev_button out = was /\
  Z.testbit (Input.press_button out) i
  = Z.testbit (Input.cur_button out) i && negb (Z.testbit was i) /\
  Z.testbit (Input.rel_button out) i
  = Z.testbit was i && negb (Z.testbit (Input.cur_button out) i) /\
  Z.land (Input.press_button out) (Input.rel_button out) = 0 /\
  Z.lor (Input.press_button out) (Input.rel_button out)
  = Z.lxor (Input.cur_button out) was.
Proof.
  intros Hwas Hi was out.
  assert (Hcur : 0 <= Input.button (Input.input_nsp_poll keys) < 2 ^ 16).
  { apply InputFacts.poll_buttons_range. lia. }
  unfold out. rewrite InputFacts.port0_after.
  set (cur := Input.button (Input.input_nsp_poll keys)) in *.
  unfold Input.update_port0.
  cbn [Input.cur_button Input.prev_button Input.press_button
       Input.rel_button].
  fold was. fold cur.
  assert (Hbits : forall j, 0 <= j ->
    Z.testbit (Input.u16 (Z.land (Z.lxor cur was) cur)) j
    = Z.testbit cur j && negb (Z.testbit was j) /\
    Z.testbit (Input.u16 (Z.land (Z.lxor cur was) was)) j
    = Z.testbit was j && negb (Z.testbit cur j)).
  { intros j Hj. rewrite !InputFacts.u16_bit by exact Hj.
    rewrite !Z.land_spec, !Z.lxor_spec.
    destruct (Z.ltb_spec j 16).
    - destruct (Z.testbit cur j), (Z.testbit was j); split; reflexivity.
    - rewrite (InputFacts.high_bits_clear cur j) by assumption.
      rewrite (InputFacts.high_bits_clear was j) by assumption.
      split; reflexivity. }
  split; [reflexivity|]. split; [reflexivity|].
  split; [exact (proj1 (Hbits i Hi))|]. split; [exact (proj2 (Hbits i Hi))|].
  split.
  - apply Z.bits_inj'. intros j Hj.
    rewrite Z.land_spec, Z.bits_0.
    destruct (Hbits j Hj) as [-> ->].
    destruct (Z.testbit cur j), (Z.testbit was j); reflexivity.
  - apply Z.bits_inj'. intros j Hj.
    rewrite Z.lor_spec, Z.lxor_spec.
    destruct (Hbits j Hj) as [-> ->].
    destruct (Z.testbit cur j), (Z.testbit was j); reflexivity.
Qed.

Lemma pad_press_and_release_witness :
  Z.testbit
    (Input.press_button
       (nth 0 (snd (Input.PadMgr_GetInput_Nsp (fun k => k =? 0x26)
                      (replicate 4 Input.zero_input) 0)) Input.zero_input))
    15
  = Z.testbit
      (Input.cur_button
         (nth 0 (snd (Input.PadMgr_GetInput_Nsp (fun k => k =? 0x26)
                        (replicate 4 Input.zero_input) 0)) Input.zero_input))
      15
    && negb (Z.testbit 0 15).
Proof.
  apply (pad_press_and_release (fun k => k =? 0x26)
           (replicate 4 Input.zero_input) 15);
    first [split; [discriminate|reflexivity]|discriminate].
Defined.

(** X19.  Two calls of [PadMgr_GetInput_Nsp] with the keypad in the same
    state: the second reports no press, no release and no stick movement,
    and its previous state equals its current one. *)
Theorem pad_steady_state (keys : Z -> bool) (input : list Input.InputCompat) :
  let once := snd (Input.PadMgr_GetInput_Nsp keys input 0) in
  let out := nth 0 (snd (Input.PadMgr_GetInput_Nsp keys once 0))
               Input.zero_input in
  Input.press_button out = 0 /\ Input.rel_button out = 0 /\
  Input.press_x out = 0 /\ Input.press_y out = 0 /\
  Input.prev_button out = Input.cur_button out /\
  Input.prev_x out = Input.cur_x out /\ Input.prev_y out = Input.cur_y out.
Proof.
  intros once out. unfold out, once.
  rewrite !InputFacts.port0_after.
  set (pad := Input.input_nsp_poll keys).
  unfold Input.update_port0.
  cbn [Input.cur_button Input.prev_button Input.press_button
       Input.rel_button Input.cur_x Input.cur_y Input.prev_x Input.prev_y
       Input.press_x Input.press_y].
  rewrite Z.lxor_nilpotent, !Z.land_0_l, !Z.sub_diag.
  repeat split.
Qed.

(** X20.  [input_nsp_poll] (keypad build): each mapped button is reported
    exactly when its key is down, whatever else is pressed, and the buttons
    no key maps to (the D-pad and L) are never reported. *)
Theorem poll_reports_mapped_buttons (keys : Z -> bool) :
  (forall key mask, In (key, mask) Input.key_map -> key <> 0 ->
     (Z.land (Input.button (Input.input_nsp_poll keys)) mask = mask
      <-> keys key = true)) /\
  Z.land (Input.button (Input.input_nsp_poll keys))
    (Z.lor (Z.lor (Z.lor (Z.lor Input.CONT_UP Input.CONT_DOWN)
                     Input.CONT_LEFT) Input.CONT_RIGHT) Input.CONT_L) = 0 /\
  Input.errnum (Input.input_nsp_poll keys) = 0.
Proof.
  assert (Hb : Input.button (Input.input_nsp_poll keys)
    = Input.poll_buttons keys Input.key_map 0) by reflexivity.
  rewrite Hb. unfold Input.key_map. cbn [Input.poll_buttons].
  change (0x26 =? 0) with false. change (0x33 =? 0) with false.
  change (0x39 =? 0) with false. change (0x36 =? 0) with false.
  change (0x25 =? 0) with false. change (0x148 =? 0) with false.
  change (0x150 =? 0) with false. change (0x14B =? 0) with false.
  change (0x14D =? 0) with false. change (0 =? 0) with true.
  cbv iota.
  split; [|split; [|reflexivity]].
  - intros key mask Hin Hkey.
    cbn [In] in Hin.
    repeat (destruct Hin as [[= <- <-]|Hin];
      [destruct (keys 0x26), (keys 0x33), (keys 0x39), (keys 0x36),
         (keys 0x25), (keys 0x148), (keys 0x150), (keys 0x14B), (keys 0x14D);
       vm_compute; split; congruence|]).
    contradiction.
  - destruct (keys 0x26), (keys 0x33), (keys 0x39), (keys 0x36),
      (keys 0x25), (keys 0x148), (keys 0x150), (keys 0x14B), (keys 0x14D);
      reflexivity.
Qed.

(** X21.  [input_nsp_poll] (keypad build): each stick axis is +80, 0 or
    -80, the difference of its two keys; opposite keys pressed together
    cancel, and the clamping never has anything to cut. *)
Theorem poll_stick_axes (keys : Z -> bool) :
  Input.stick_x (Input.input_nsp_poll keys)
  = (if keys 0x20 then 80 else 0) - (if keys 0x1E then 80 else 0) /\
  Input.stick_y (Input.input_nsp_poll keys)
  = (if keys 0x11 then 80 else 0) - (if keys 0x1F then 80 else 0) /\
  -80 <= Input.stick_x (Input.input_nsp_poll keys) <= 80 /\
  -80 <= Input.stick_y (Input.input_nsp_poll keys) <= 80 /\
  Input.clamp_axis
    (fst (Input.poll_stick keys Input.stick_map (0, 0)))
  = fst (Input.poll_stick keys Input.stick_map (0, 0)).
Proof.
  unfold Input.input_nsp_poll, Input.stick_map.
  cbn [Input.stick_x Input.stick_y Input.poll_stick].
  change (0x11 =? 0) with false. change (0x1F =? 0) with false.
  change (0x1E =? 0) with false. change (0x20 =? 0) with false.
  change (0 =? 0) with true. cbv iota.
  destruct (keys 0x11), (keys 0x1F), (keys 0x1E), (keys 0x20);
    vm_compute; repeat split; discriminate.
Qed.

(** ** Frame pacing *)

Module FrameFacts.
Import Frame.

(** One call with the counter below its bound: what it does to the
    counter and to the LCD. *)
Lemma one_frame (fuel : nat) (mem : memory) (K dl : Z) (st st' : frame_state) :
  0 <= K < 2 ^ 32 - 1 ->
  0 <= frameskip_counter st <= K ->
  Graph_TaskSet00_Nsp fuel mem K dl st = Some st' ->
  frameskip_counter st' = (frameskip_counter st + 1) mod (K + 1) /\
  lcd st'
  = lcd st ++ concat (replicate
                        (Z.to_nat ((frameskip_counter st + 1) / (K + 1)))
                        [SwapBegin; SwapEnd]).
Proof.
  intros HK Hc. unfold Graph_TaskSet00_Nsp, u32.
  rewrite (Z.mod_small (frameskip_counter st + 1)) by lia.
  destruct (Z.leb_spec (frameskip_counter st + 1) K) as [Hskip|Hrender].
  - intros [= <-]. cbn [frameskip_counter lcd].
    rewrite Z.mod_small, Z.div_small by lia. cbn.
    rewrite app_nil_r. auto.
  - assert (Heq : frameskip_counter st + 1 = K + 1) by lia.
    destruct (if negb (dl =? 0) then _ else _) as [w'|]; [|discriminate].
    intros [= <-]. cbn [frameskip_counter lcd].
    rewrite Heq, Z.mod_same, Z.div_same by lia. auto.
Qed.

End FrameFacts.

(** X22.  Frame skip with [configFrameskip = K] below [UINT_MAX]: over any
    number of calls whose display-list walks return, the counter runs
    modulo [K + 1] and the buffers are swapped once every [K + 1] calls:
    after [n] calls from counter [c] the counter is [(c + n) mod (K + 1)]
    and the LCD has received, after what it had, [(c + n) / (K + 1)] times
    the pair begin-swap, end-swap, in that order, and nothing else. *)
Theorem frameskip_period
    (n fuel : nat) (mem : memory) (K dl : Z) (st st' : Frame.frame_state) :
  0 <= K < 2 ^ 32 - 1 ->
  0 <= Frame.frameskip_counter st <= K ->
  Frame.frames n fuel mem K dl st = Some st' ->
  Frame.frameskip_counter st'
  = (Frame.frameskip_counter st + Z.of_nat n) mod (K + 1) /\
  Frame.lcd st'
  = Frame.lcd st
    ++ concat (replicate
                 (Z.to_nat ((Frame.frameskip_counter st + Z.of_nat n)
                            / (K + 1)))
                 [Frame.SwapBegin; Frame.SwapEnd]) /\
  Z.of_nat (length (Frame.lcd st'))
  = Z.of_nat (length (Frame.lcd st))
    + 2 * ((Frame.frameskip_counter st + Z.of_nat n) / (K + 1)).
Proof.
  intros HK.
  assert (Hmain : forall m st0 st1,
    0 <= Frame.frameskip_counter st0 <= K ->
    Frame.frames m fuel mem K dl st0 = Some st1 ->
    Frame.frameskip_counter st1
    = (Frame.frameskip_counter st0 + Z.of_nat m) mod (K + 1) /\
    Frame.lcd st1
    = Frame.lcd st0
      ++ concat (replicate
                   (Z.to_nat ((Frame.frameskip_counter st0 + Z.of_nat m)
                              / (K + 1)))
                   [Frame.SwapBegin; Frame.SwapEnd])).
  { induction m as [|m IH]; intros st0 st1 Hc Hrun.
    - cbn in Hrun. injection Hrun as <-.
      rewrite Z.add_0_r, Z.mod_small, Z.div_small by lia. cbn.
      rewrite app_nil_r. auto.
    - cbn [Frame.frames] in Hrun.
      destruct (Frame.Graph_TaskSet00_Nsp fuel mem K dl st0) as [st2|] eqn:Hone;
        [|discriminate].
      destruct (FrameFacts.one_frame fuel mem K dl st0 st2 HK Hc Hone)
        as [Hc2 Hl2].
      assert (Hb2 : 0 <= Frame.frameskip_counter st2 <= K).
      { rewrite Hc2.
        pose proof (Z.mod_pos_bound (Frame.frameskip_counter st0 + 1) (K + 1)
                      ltac:(lia)). lia. }
      destruct (IH st2 st1 Hb2 Hrun) as [Hcn Hln].
      set (c := Frame.frameskip_counter st0) in *.
      replace (c + Z.of_nat (S m)) with (c + 1 + Z.of_nat m) by lia.
      split.
      + rewrite Hcn, Hc2. apply Zplus_mod_idemp_l.
      + rewrite Hln, Hl2, Hc2, <- app_assoc. f_equal.
        rewrite <- concat_app, <- replicate_add. f_equal. f_equal.
        pose proof (Z.div_mod (c + 1) (K + 1) ltac:(lia)) as Hdm.
        set (q := (c + 1) / (K + 1)) in *.
        set (r := (c + 1) mod (K + 1)) in *.
        assert (Hq : 0 <= q) by (apply Z.div_pos; lia).
        assert (Hr : 0 <= r < K + 1) by (apply Z.mod_pos_bound; lia).
        replace (c + 1 + Z.of_nat m) with (q * (K + 1) + (r + Z.of_nat m))
          by lia.
        rewrite Z.div_add_l by lia.
        assert (0 <= (r + Z.of_nat m) / (K + 1)) by (apply Z.div_pos; lia).
        lia. }
  intros Hc Hrun. destruct (Hmain n st st' Hc Hrun) as [Hcn Hln].
  split; [exact Hcn|]. split; [exact Hln|].
  rewrite Hln, length_app.
  assert (Hlen : forall k, length (concat (replicate k
                   [Frame.SwapBegin; Frame.SwapEnd])) = (2 * k)%nat).
  { induction k as [|k IHk]; [reflexivity|]. cbn. cbn in IHk. lia. }
  rewrite Hlen.
  assert (0 <= (Frame.frameskip_counter st + Z.of_nat n) / (K + 1))
    by (apply Z.div_pos; lia).
  lia.
Qed.

Lemma frameskip_period_witness :
  Frame.frameskip_counter
    {| Frame.frameskip_counter := 1; Frame.statics := boot;
       Frame.lcd := [Frame.SwapBegin; Frame.SwapEnd;
                     Frame.SwapBegin; Frame.SwapEnd] |}
  = (0 + Z.of_nat 7) mod (2 + 1) /\
  Frame.lcd
    {| Frame.frameskip_counter := 1; Frame.statics := boot;
       Frame.lcd := [Frame.SwapBegin; Frame.SwapEnd;
                     Frame.SwapBegin; Frame.SwapEnd] |}
  = [] ++ concat (replicate (Z.to_nat ((0 + Z.of_nat 7) / (2 + 1)))
                    [Frame.SwapBegin; Frame.SwapEnd]).
Proof.
  destruct (frameskip_period 7 0 zero_mem 2 0
           {| Frame.frameskip_counter := 0; Frame.statics := boot;
              Frame.lcd := [] |}
           {| Frame.frameskip_counter := 1; Frame.statics := boot;
              Frame.lcd := [Frame.SwapBegin; Frame.SwapEnd;
                            Frame.SwapBegin; Frame.SwapEnd] |}
           ltac:(split; [discriminate|reflexivity])
           ltac:(split; discriminate) eq_refl) as (Hc & Hl & _).
  split; [exact Hc|exact Hl].
Defined.

(** X23.  Skipped calls do nothing but count: as long as the counter stays
    within [configFrameskip], [n] calls leave the walker's statics and the
    LCD untouched and never start a display-list walk, so they return
    whatever the list holds and however little fuel there is. *)
Theorem skipped_frames_only_count
    (n fuel : nat) (mem : memory) (K dl : Z) (st : Frame.frame_state) :
  0 <= Frame.frameskip_counter st ->
  Frame.frameskip_counter st + Z.of_nat n <= K ->
  K < 2 ^ 32 ->
  Frame.frames n fuel mem K dl st
  = Some {| Frame.frameskip_counter := Frame.frameskip_counter st + Z.of_nat n;
            Frame.statics := Frame.statics st;
            Frame.lcd := Frame.lcd st |}.
Proof.
  revert st. induction n as [|n IH]; intros st Hc Hn HK.
  - cbn. rewrite Z.add_0_r. destruct st; reflexivity.
  - cbn [Frame.frames]. unfold Frame.Graph_TaskSet00_Nsp, u32.
    rewrite Z.mod_small by lia.
    destruct (Z.leb_spec (Frame.frameskip_counter st + 1) K); [|lia].
    rewrite IH; cbn; [|lia|lia|lia]. f_equal. f_equal. lia.
Qed.

Lemma skipped_frames_only_count_witness :
  Frame.frames 3 0 Samples.mutual_branch_stream 5 0x1000
    {| Frame.frameskip_counter := 0; Frame.statics := boot; Frame.lcd := [] |}
  = Some {| Frame.frameskip_counter := 0 + Z.of_nat 3;
            Frame.statics := boot; Frame.lcd := [] |}.
Proof.
  apply (skipped_frames_only_count 3 0 Samples.mutual_branch_stream 5 0x1000
           {| Frame.frameskip_counter := 0; Frame.statics := boot;
              Frame.lcd := [] |});
    first [discriminate|reflexivity].
Defined.

(** X24.  With [configFrameskip] at [UINT_MAX] no call ever renders: the
    incremented counter, wrapping at 2^32, is never above the bound, so the
    display list is never walked and the buffers are never swapped. *)
Theorem frameskip_uint_max_never_renders
    (n fuel : nat) (mem : memory) (dl : Z) (st : Frame.frame_state) :
  0 <= Frame.frameskip_counter st < 2 ^ 32 ->
  Frame.frames n fuel mem (2 ^ 32 - 1) dl st
  = Some {| Frame.frameskip_counter :=
              (Frame.frameskip_counter st + Z.of_nat n) mod 2 ^ 32;
            Frame.statics := Frame.statics st;
            Frame.lcd := Frame.lcd st |}.
Proof.
  revert st. induction n as [|n IH]; intros st Hc.
  - cbn. rewrite Z.add_0_r, Z.mod_small by exact Hc. destruct st; reflexivity.
  - cbn [Frame.frames]. unfold Frame.Graph_TaskSet00_Nsp, u32.
    pose proof (Z.mod_pos_bound (Frame.frameskip_counter st + 1) (2 ^ 32)
                  ltac:(lia)) as Hb.
    destruct (Z.leb_spec ((Frame.frameskip_counter st + 1) mod 2 ^ 32)
                (2 ^ 32 - 1)); [|lia].
    rewrite IH by exact Hb. cbn [Frame.frameskip_counter Frame.statics Frame.lcd].
    rewrite Zplus_mod_idemp_l. f_equal. f_equal. f_equal. lia.
Qed.

Lemma frameskip_uint_max_never_renders_witness :
  Frame.frames 2 0 Samples.render_stream (2 ^ 32 - 1) 0x1000
    {| Frame.frameskip_counter := 2 ^ 32 - 1; Frame.statics := boot;
       Frame.lcd := [] |}
  = Some {| Frame.frameskip_counter := (2 ^ 32 - 1 + Z.of_nat 2) mod 2 ^ 32;
            Frame.statics := boot; Frame.lcd := [] |}.
Proof.
  apply (frameskip_uint_max_never_renders 2 0 Samples.render_stream 0x1000
           {| Frame.frameskip_counter := 2 ^ 32 - 1; Frame.statics := boot;
              Frame.lcd := [] |}).
  split; [discriminate|reflexivity].
Defined.

(** X25.  The FPS counter with the timer of nsp_replacements.c, which
    always reads 0: starting with [nsp_last_fps_time = 0] no second ever
    elapses, so [nsp_current_fps] is never updated and [nsp_frame_count]
    just counts the calls modulo 2^32. *)
Theorem fps_never_reported (n : nat) (st : Frame.fps_state) :
  Frame.nsp_last_fps_time st = 0 ->
  0 <= Frame.nsp_frame_count st < 2 ^ 32 ->
  Frame.update_fps_n n st
  = {| Frame.nsp_frame_count :=
         (Frame.nsp_frame_count st + Z.of_nat n) mod 2 ^ 32;
       Frame.nsp_last_fps_time := 0;
       Frame.nsp_current_fps := Frame.nsp_current_fps st |}.
Proof.
  revert st. induction n as [|n IH]; intros st Hlast Hcount.
  - cbn. rewrite Z.add_0_r, Z.mod_small by exact Hcount.
    destruct st; cbn in *; subst; reflexivity.
  - cbn [Frame.update_fps_n]. unfold Frame.nsp_update_fps, Frame.tmr_ms, u32.
    rewrite Hlast. change ((0 - 0) mod 2 ^ 32 >=? 1000) with false. cbv iota.
    rewrite IH.
    + cbn [Frame.nsp_frame_count Frame.nsp_last_fps_time Frame.nsp_current_fps].
      rewrite Zplus_mod_idemp_l. f_equal. f_equal. lia.
    + reflexivity.
    + cbn. apply Z.mod_pos_bound. lia.
Qed.

Lemma fps_never_reported_witness :
  Frame.update_fps_n 5000 (Frame.mkFps 0 0 0)
  = {| Frame.nsp_frame_count := (0 + Z.of_nat 5000) mod 2 ^ 32;
       Frame.nsp_last_fps_time := 0;
       Frame.nsp_current_fps := 0 |}.
Proof.
  apply (fps_never_reported 5000 (Frame.mkFps 0 0 0) eq_refl).
  split; [discriminate|reflexivity].
Defined.
